(** * Receipt text extraction and field parsing (finance-tracker)

    A shallow embedding of the receipt pipeline of the expense tracker:
    - [parseBankReceiptText] and [extractField] (the pdf/ocr parser module),
    - [pdfToImageDataURL], [extractTextWithOCR], [parseBankReceiptPDF],
      [extractPDFText] (same module, effectful part),
    - [parseDate], [parseAmount] (utils/dateHelpers.ts),
    - [receiptDataToExpense] and the [uploadPDF] of [usePDFUpload]
      (hooks/useExpenses.ts),
    - [initializeDefaultCategories], [getDatabase] and the category
      operations (services/database.ts).

    JavaScript strings are sequences of UTF-16 code units; they are modelled
    as [list N].  Regular expressions are modelled by a small backtracking
    matcher covering exactly the constructs that occur in the source
    (single-character atoms and classes under greedy quantifiers, one level
    of capturing groups, [^] and [$]). *)

From Stdlib Require Import String Ascii.
From Stdlib Require Import List NArith ZArith Arith Lia Bool.
Import ListNotations.

(* ================================================================== *)
(** ** JavaScript strings *)
(* ================================================================== *)

Module JS.

(** A UTF-16 code unit, and a string. *)
Definition code_unit := N.
Definition jsstring := list code_unit.

(** An ASCII literal as a JavaScript string. *)
Definition lit (s : string) : jsstring :=
  map N_of_ascii (list_ascii_of_string s).

(** The line feed, written [\n] in the source. *)
Definition LF : code_unit := 10%N.

(** WhiteSpace and LineTerminator code points of ECMAScript: what [\s]
    matches and what [String.prototype.trim] strips. *)
Definition white_space : list code_unit :=
  [9; 10; 11; 12; 13; 32; 160; 5760;
   8192; 8193; 8194; 8195; 8196; 8197; 8198; 8199; 8200; 8201; 8202;
   8232; 8233; 8239; 8287; 12288; 65279]%N.

Definition is_space (c : code_unit) : bool := existsb (N.eqb c) white_space.

Fixpoint trimStart (s : jsstring) : jsstring :=
  match s with
  | c :: r => if is_space c then trimStart r else s
  | [] => []
  end.

Definition trimEnd (s : jsstring) : jsstring := rev (trimStart (rev s)).

(** [String.prototype.trim]. *)
Definition trim (s : jsstring) : jsstring := trimEnd (trimStart s).

(** The [len] code units of [s] from index [start] on. *)
Definition substring (s : jsstring) (start len : nat) : jsstring :=
  firstn len (skipn start s).

Fixpoint starts_with (p s : jsstring) : bool :=
  match p, s with
  | [], _ => true
  | a :: p', b :: s' => N.eqb a b && starts_with p' s'
  | _ :: _, [] => false
  end.

(** Strict equality of strings. *)
Fixpoint eqb (s t : jsstring) : bool :=
  match s, t with
  | [], [] => true
  | a :: s', b :: t' => N.eqb a b && eqb s' t'
  | _, _ => false
  end.

(** [String.prototype.includes]. *)
Fixpoint includes (s sub : jsstring) : bool :=
  starts_with sub s ||
  match s with
  | [] => false
  | _ :: r => includes r sub
  end.

(** Truthiness of a [string | undefined] value: [undefined] and the empty
    string are falsy. *)
Definition truthy (v : option jsstring) : bool :=
  match v with
  | Some (_ :: _) => true
  | _ => false
  end.

(** [a || b] on [string | undefined] values. *)
Definition or_else (a b : option jsstring) : option jsstring :=
  if truthy a then a else b.

(** [s] occurs in [t] as a contiguous run of code units. *)
Definition is_substring (s t : jsstring) : Prop :=
  exists pre post, t = pre ++ s ++ post.

End JS.

(* ================================================================== *)
(** ** Regular expressions *)
(* ================================================================== *)

Module Regex.
Import JS.

(** Members of a character class. *)
Inductive class_atom :=
| CChar (c : code_unit)             (* a single character *)
| CRange (lo hi : code_unit)        (* lo-hi *)
| CSpace.                           (* \s *)

(** A one-character atom. *)
Inductive char_set :=
| Chr (c : code_unit)               (* a pattern character *)
| Class (items : list class_atom)   (* [...] *)
| NegClass (items : list class_atom). (* [^...] *)

(** A term of a pattern: a quantified atom (greedy), or an assertion. *)
Inductive term :=
| Rep (cs : char_set) (lo : nat) (hi : option nat)  (* atom{lo,hi} *)
| Bol                                               (* ^ *)
| Eol.                                              (* $ *)

(** The source's patterns are sequences of terms and of capturing groups
    whose bodies are sequences of terms (groups are neither nested nor
    quantified anywhere in the source). *)
Inductive piece :=
| T (t : term)
| Group (body : list term).

(** An atom without quantifier, and the quantifiers [+], [*], [?] and
    [{lo,hi}]. *)
Definition one (cs : char_set) : term := Rep cs 1 (Some 1).
Definition plus (cs : char_set) : term := Rep cs 1 None.
Definition star (cs : char_set) : term := Rep cs 0 None.
Definition opt (cs : char_set) : term := Rep cs 0 (Some 1).
Definition rep (cs : char_set) (lo hi : nat) : term := Rep cs lo (Some hi).

(** A run of literal pattern characters. *)
Definition chars (s : jsstring) : list term := map (fun c => one (Chr c)) s.
Definition word (s : string) : list piece := map T (chars (lit s)).

(** Canonicalize of the RegExp semantics (no [u] flag): with [ignoreCase]
    a code unit is replaced by its upper-case form when that is a single
    code unit, except that a non-ASCII code unit is never mapped to an
    ASCII one.  The mapping is written out for the Basic Latin and
    Latin-1 blocks, which contain every pattern character of the source;
    code units from 256 on are left as they are (none of them has an
    upper-case form inside those two blocks other than the two excluded
    by the ASCII rule). *)
Definition Canonicalize (ignoreCase : bool) (ch : code_unit) : code_unit :=
  (if negb ignoreCase then ch
   else if (97 <=? ch) && (ch <=? 122) then ch - 32
   else if (224 <=? ch) && (ch <=? 254) && negb (ch =? 247) then ch - 32
   else if ch =? 255 then 376
   else if ch =? 181 then 924
   else ch)%N.

(** The code units of a class. *)
Definition class_atom_members (a : class_atom) : list code_unit :=
  match a with
  | CChar c => [c]
  | CRange lo hi =>
      map (fun k => (lo + N.of_nat k)%N) (seq 0 (N.to_nat (hi + 1 - lo)))
  | CSpace => white_space
  end.

Definition class_members (items : list class_atom) : list code_unit :=
  flat_map class_atom_members items.

(** CharacterSetMatcher: some member of the set canonicalizes to the same
    code unit as the input character. *)
Definition in_set (ic : bool) (members : list code_unit) (ch : code_unit) : bool :=
  existsb (fun a => (Canonicalize ic a =? Canonicalize ic ch)%N) members.

Definition char_matches (ic : bool) (cs : char_set) (ch : code_unit) : bool :=
  match cs with
  | Chr c => in_set ic [c] ch
  | Class items => in_set ic (class_members items) ch
  | NegClass items => negb (in_set ic (class_members items) ch)
  end.

(** Length of the longest prefix of [s] made of characters of [cs]. *)
Fixpoint run_length (ic : bool) (cs : char_set) (s : jsstring) : nat :=
  match s with
  | c :: r => if char_matches ic cs c then S (run_length ic cs r) else 0
  | [] => 0
  end.

(** A count bounded by the maximum of a quantifier. *)
Definition capped (hi : option nat) (n : nat) : nat :=
  match hi with
  | Some h => Nat.min h n
  | None => n
  end.

(** Greedy backtracking over the number of repetitions: [k], [k-1], ...,
    down to [lo]; the first count for which the continuation succeeds. *)
Fixpoint try_down {A} (f : nat -> option A) (lo k : nat) : option A :=
  if k <? lo then None
  else match f k with
       | Some r => Some r
       | None => match k with
                 | O => None
                 | S k' => try_down f lo k'
                 end
       end.

(** Match a sequence of terms against [s], the input from index [pos] on.
    The result lists the number of code units consumed by each term. *)
Fixpoint match_terms (ic : bool) (ts : list term) (pos : nat) (s : jsstring)
  : option (list nat) :=
  match ts with
  | [] => Some []
  | Bol :: ts' =>
      if pos =? 0 then option_map (cons 0) (match_terms ic ts' pos s) else None
  | Eol :: ts' =>
      match s with
      | [] => option_map (cons 0) (match_terms ic ts' pos s)
      | _ :: _ => None
      end
  | Rep cs lo hi :: ts' =>
      try_down
        (fun k => option_map (cons k) (match_terms ic ts' (pos + k) (skipn k s)))
        lo (capped hi (run_length ic cs s))
  end.

(** The terms of a pattern, in order. *)
Definition terms_of (ps : list piece) : list term :=
  flat_map (fun p => match p with T t => [t] | Group body => body end) ps.

(** The search loop of RegExpBuiltinExec: the leftmost index from [pos] on
    at which the pattern matches.  With [sticky] only [pos] is tried. *)
Fixpoint search (ic sticky : bool) (ts : list term) (pos : nat) (s : jsstring)
  : option (nat * list nat) :=
  match match_terms ic ts pos s with
  | Some counts => Some (pos, counts)
  | None =>
      if sticky then None
      else match s with
           | [] => None
           | _ :: r => search ic sticky ts (S pos) r
           end
  end.

(** The total number of code units consumed by some terms. *)
Definition sum (l : list nat) : nat := fold_right Nat.add 0 l.

(** The captured substrings, given the per-term counts of a match that
    starts at [pos]. *)
Fixpoint captures (ps : list piece) (counts : list nat) (pos : nat)
  (input : jsstring) : list jsstring :=
  match ps with
  | [] => []
  | T _ :: ps' =>
      captures ps' (tl counts) (pos + hd 0 counts) input
  | Group body :: ps' =>
      let n := length body in
      let len := sum (firstn n counts) in
      substring input pos len :: captures ps' (skipn n counts) (pos + len) input
  end.

(** A RegExp object: the pattern, its flags, and the mutable [lastIndex]. *)
Record RegExp := mkRegExp {
  source : list piece;
  ignoreCase : bool;
  global : bool;
  sticky : bool;
  lastIndex : nat
}.

(** Assignment to [lastIndex]. *)
Definition set_lastIndex (R : RegExp) (i : nat) : RegExp :=
  mkRegExp (source R) (ignoreCase R) (global R) (sticky R) i.

(** A regular expression literal, without flag or with the flag [i],
    freshly evaluated. *)
Definition regex (src : list piece) : RegExp := mkRegExp src false false false 0.
Definition regex_i (src : list piece) : RegExp := mkRegExp src true false false 0.

(** RegExpBuiltinExec.  The result array holds the whole match at index 0
    and the captures from index 1 on; the second component is the RegExp
    object after the call. *)
Definition RegExpBuiltinExec (R : RegExp) (input : jsstring)
  : option (list jsstring) * RegExp :=
  let uses_last := global R || sticky R in
  let start := if uses_last then lastIndex R else 0 in
  let fail := if uses_last then set_lastIndex R 0 else R in
  if length input <? start then (None, fail)
  else
    match search (ignoreCase R) (sticky R) (terms_of (source R)) start
                 (skipn start input) with
    | None => (None, fail)
    | Some (index, counts) =>
        let e := index + sum counts in
        (Some (substring input index (sum counts)
               :: captures (source R) counts index input),
         if uses_last then set_lastIndex R e else R)
    end.

(** The loop of [RegExp.prototype[Symbol.match]] for a global RegExp: every
    match's text, in order.  Each round moves [lastIndex] forward, so
    [length input + 2] rounds are enough. *)
Fixpoint match_all (fuel : nat) (R : RegExp) (input : jsstring)
  (acc : list jsstring) : option (list jsstring) * RegExp :=
  match fuel with
  | O => (match acc with [] => None | _ => Some (rev acc) end, R)
  | S fuel' =>
      match RegExpBuiltinExec R input with
      | (None, R') => (match acc with [] => None | _ => Some (rev acc) end, R')
      | (Some m, R') =>
          let whole := hd [] m in
          let R'' := match whole with
                     | [] => set_lastIndex R' (S (lastIndex R'))
                     | _ :: _ => R'
                     end in
          match_all fuel' R'' input (whole :: acc)
      end
  end.

(** [String.prototype.match] with a RegExp argument. *)
Definition String_match (input : jsstring) (R : RegExp)
  : option (list jsstring) * RegExp :=
  if global R then match_all (length input + 2) (set_lastIndex R 0) input []
  else RegExpBuiltinExec R input.

(** [RegExp.prototype.test]. *)
Definition test (R : RegExp) (input : jsstring) : bool * RegExp :=
  match RegExpBuiltinExec R input with
  | (Some _, R') => (true, R')
  | (None, R') => (false, R')
  end.

End Regex.

(* ================================================================== *)
(** ** Field extraction from the transcription *)
(* ================================================================== *)

Module Receipt.
Import JS Regex.

(** The [BankReceiptData] interface: five optional strings. *)
Record BankReceiptData := mkReceipt {
  from : option jsstring;
  to : option jsstring;
  amount : option jsstring;
  transactionType : option jsstring;
  date : option jsstring
}.

(** [extractField]: [text.match(pattern)], then [match?.[1]?.trim()].  The
    RegExp object after the call is returned with the value. *)
Definition extractField (text : jsstring) (pattern : RegExp)
  : option jsstring * RegExp :=
  let (m, pattern') := String_match text pattern in
  (match m with
   | Some arr => option_map trim (nth_error arr 1)
   | None => None
   end, pattern').

(** [extractField(text, r1) || extractField(text, r2) || ...]: the first
    truthy value, and the last value when none is truthy.  Patterns after
    the first truthy one are not executed. *)
Fixpoint or_chain (text : jsstring) (rs : list RegExp)
  : option jsstring * list RegExp :=
  match rs with
  | [] => (None, [])
  | r :: rest =>
      let (v, r') := extractField text r in
      match rest with
      | [] => (v, [r'])
      | _ :: _ =>
          if truthy v then (v, r' :: rest)
          else let (v', rest') := or_chain text rest in (v', r' :: rest')
      end
  end.

(** The code unit of an ASCII character. *)
Definition ch (a : ascii) : code_unit := N_of_ascii a.

Definition colon_or_space : char_set := Class [CChar (ch ":"); CSpace].      (* [:\s] *)
Definition not_newline : char_set := NegClass [CChar LF].                     (* [^\n] *)
Definition digit : char_set := Class [CRange (ch "0") (ch "9")].              (* [0-9] *)
Definition digit_comma_space : char_set :=
  Class [CRange (ch "0") (ch "9"); CChar (ch ","); CSpace].                   (* [0-9,\s] *)
Definition digit_space : char_set := Class [CRange (ch "0") (ch "9"); CSpace]. (* [0-9\s] *)
Definition dot_or_comma : char_set := Class [CChar (ch "."); CChar (ch ",")]. (* [.,] *)
Definition space : char_set := Class [CSpace].                                (* \s *)
Definition dash_or_slash : char_set := Class [CChar (ch "-"); CChar (ch "/")]. (* [-\/] *)
Definition dollar : char_set := Chr (ch "$").                                 (* \$ *)
Definition dot : char_set := Chr (ch ".").                                    (* \. *)

(** The literal /KEYWORD[:\s]+( [^\n]+ )/i *)
Definition label_line (keyword : list piece) : RegExp :=
  regex_i (keyword ++ [T (plus colon_or_space); Group [plus not_newline]]).

(** The group body [0-9]{1,2}[-\/][0-9]{1,2}[-\/][0-9]{2,4} *)
Definition short_date : list term :=
  [rep digit 1 2; one dash_or_slash; rep digit 1 2; one dash_or_slash; rep digit 2 4].

(** The literal /KEYWORD[:\s]+( [0-9]{1,2}[-\/][0-9]{1,2}[-\/][0-9]{2,4} )/i *)
Definition label_date (keyword : list piece) : RegExp :=
  regex_i (keyword ++ [T (plus colon_or_space); Group short_date]).

(** The fourth [from] keyword as the source file has it: F, r, U+00C3,
    U+00A5, n (the two code points between [r] and [n] are what the file
    holds where the Swedish word has U+00E5). *)
Definition Fran_keyword : list piece :=
  word "Fr" ++ [T (one (Chr 195%N)); T (one (Chr 165%N))] ++ word "n".

(** The RegExp objects of [parseBankReceiptText], per field. *)
Record receipt_patterns := mkPatterns {
  from_patterns : list RegExp;
  to_patterns : list RegExp;
  amount_patterns : list RegExp;
  transactionType_patterns : list RegExp;
  date_patterns : list RegExp
}.

(** The regular expression literals of [parseBankReceiptText], per field,
    in source order.  (Where a literal is quoted in a comment, its
    capturing group is written with a blank inside each parenthesis.) *)
Definition literals : receipt_patterns := {|
  from_patterns :=
    [ label_line (word "FROM");
      label_line (word "Sender");
      label_line (word "Payer");
      label_line Fran_keyword ];
  to_patterns :=
    [ label_line (word "TO");
      label_line (word "Recipient");
      label_line (word "Payee");
      label_line (word "Merchant");
      label_line (word "Till");
      label_line (word "Mottagare") ];
  amount_patterns :=
    [ (* /AMOUNT[:\s]+\$?( [0-9,\s]+\.?[0-9]* )/i *)
      regex_i (word "AMOUNT" ++
               [T (plus colon_or_space); T (opt dollar);
                Group [plus digit_comma_space; opt dot; star digit]]);
      (* /Total[:\s]+\$?( [0-9,\s]+\.?[0-9]* )/i *)
      regex_i (word "Total" ++
               [T (plus colon_or_space); T (opt dollar);
                Group [plus digit_comma_space; opt dot; star digit]]);
      (* /Belopp[:\s]+( [0-9,\s]+[.,]?[0-9]* )/i *)
      regex_i (word "Belopp" ++
               [T (plus colon_or_space);
                Group [plus digit_comma_space; opt dot_or_comma; star digit]]);
      (* /( [0-9\s]+[.,][0-9]{2} )\s*kr/i *)
      regex_i ([Group [plus digit_space; one dot_or_comma; rep digit 2 2];
                T (star space)] ++ word "kr");
      (* /\$?\s*( [0-9,\s]+\.[0-9]{2} )/ *)
      regex [T (opt dollar); T (star space);
             Group [plus digit_comma_space; one dot; rep digit 2 2]] ];
  transactionType_patterns :=
    [ label_line (word "TRANSACTION TYPE");
      label_line (word "Type");
      label_line (word "Payment Method");
      label_line (word "Transaktionstyp");
      label_line (word "Typ") ];
  date_patterns :=
    [ label_date (word "DATE");
      label_date (word "Transaction Date");
      label_date (word "Datum");
      (* /( [0-9]{4}[-\/][0-9]{1,2}[-\/][0-9]{1,2} )/ *)
      regex [Group [rep digit 4 4; one dash_or_slash; rep digit 1 2;
                    one dash_or_slash; rep digit 1 2]];
      (* /( [0-9]{1,2}[-\/][0-9]{1,2}[-\/][0-9]{2,4} )/ *)
      regex [Group short_date] ]
|}.

(** The body of [parseBankReceiptText] run on given RegExp objects; the
    objects after the run are returned with the record. *)
Definition parseBankReceiptText_with (ps : receipt_patterns) (text : jsstring)
  : BankReceiptData * receipt_patterns :=
  let (v_from, p_from) := or_chain text (from_patterns ps) in
  let (v_to, p_to) := or_chain text (to_patterns ps) in
  let (v_amount, p_amount) := or_chain text (amount_patterns ps) in
  let (v_type, p_type) := or_chain text (transactionType_patterns ps) in
  let (v_date, p_date) := or_chain text (date_patterns ps) in
  (mkReceipt v_from v_to v_amount v_type v_date,
   mkPatterns p_from p_to p_amount p_type p_date).

(** [parseBankReceiptText]: every call evaluates the literals anew. *)
Definition parseBankReceiptText (text : jsstring) : BankReceiptData :=
  fst (parseBankReceiptText_with literals text).

End Receipt.

(* ================================================================== *)
(** ** utils/dateHelpers.ts: parseDate and parseAmount *)
(* ================================================================== *)

Module DateHelpers.
Import JS Regex Receipt.

(** Integer-valued JavaScript numbers, and NaN.  (The integers that occur
    here are far below 2^53, so the arithmetic is exact.) *)
Inductive num :=
| NaN
| Int (z : Z).

(** [a + b] and [a - b]. *)
Definition num_add (a b : num) : num :=
  match a, b with
  | Int x, Int y => Int (x + y)
  | _, _ => NaN
  end.

Definition num_sub (a b : num) : num :=
  match a, b with
  | Int x, Int y => Int (x - y)
  | _, _ => NaN
  end.

(** [a < b]; false when an operand is NaN. *)
Definition num_lt (a b : num) : bool :=
  match a, b with
  | Int x, Int y => (x <? y)%Z
  | _, _ => false
  end.

(** The ASCII digits. *)
Definition is_digit (c : code_unit) : bool := ((48 <=? c) && (c <=? 57))%N.

Fixpoint digits_value (acc : Z) (s : jsstring) : Z :=
  match s with
  | c :: r =>
      if is_digit c then digits_value (10 * acc + (Z.of_N c - 48)) r else acc
  | [] => acc
  end.

(** [parseInt(s, 10)] on a string without sign or leading blanks: the
    value of the leading decimal digits, NaN when there is none. *)
Definition parseInt10 (s : jsstring) : num :=
  match s with
  | c :: _ => if is_digit c then Int (digits_value 0 s) else NaN
  | [] => NaN
  end.

(** A [Date] object, identified by its time value read in local time (ms
    since 1970-01-01T00:00 local); the offset of the host's time zone is
    left out of the model. *)
Inductive Date :=
| InvalidDate
| DateValue (t : Z).

(** Milliseconds per day. *)
Definition msPerDay : Z := 86400000.

(** ECMAScript's day number of the first day of year [y]. *)
Definition DayFromYear (y : Z) : Z :=
  365 * (y - 1970) + (y - 1969) / 4 - (y - 1901) / 100 + (y - 1601) / 400.

(** Leap years of the Gregorian calendar. *)
Definition InLeapYear (y : Z) : bool :=
  ((y mod 4 =? 0) && negb (y mod 100 =? 0) || (y mod 400 =? 0))%Z.

(** Days of the year before month [mn] (0 = January). *)
Definition month_start (mn : Z) (leap : bool) : Z :=
  nth (Z.to_nat mn) [0; 31; 59; 90; 120; 151; 181; 212; 243; 273; 304; 334]%Z 0%Z
  + (if leap && (2 <=? mn)%Z then 1 else 0).

(** MakeDay: month and day out of range carry into the year and month. *)
Definition MakeDay (year month date : Z) : Z :=
  let ym := (year + month / 12)%Z in
  let mn := (month mod 12)%Z in
  (DayFromYear ym + month_start mn (InLeapYear ym) + date - 1)%Z.

(** TimeClip: a time value beyond 8.64e15 ms is no date. *)
Definition TimeClip (t : Z) : Date :=
  if (8640000000000000 <? Z.abs t)%Z then InvalidDate else DateValue t.

(** [new Date(year, monthIndex, day)]: a year from 0 to 99 means 1900 +
    year; the time of day is 00:00 local. *)
Definition new_Date (year monthIndex day : num) : Date :=
  match year, monthIndex, day with
  | Int y, Int m, Int d =>
      let yr := if ((0 <=? y) && (y <=? 99))%Z then (1900 + y)%Z else y in
      TimeClip (MakeDay yr m d * msPerDay)
  | _, _, _ => InvalidDate
  end.

(** date-fns [isValid] on a Date object. *)
Definition isValid (d : Date) : bool :=
  match d with
  | InvalidDate => false
  | DateValue _ => true
  end.

(** The first format of [parseDate]:
    /^(\d{1,2})[-\/](\d{1,2})[-\/](\d{2,4})$/ *)
Definition format_month_first : RegExp :=
  regex [T Bol; Group [rep digit 1 2]; T (one dash_or_slash);
         Group [rep digit 1 2]; T (one dash_or_slash);
         Group [rep digit 2 4]; T Eol].

(** The second format of [parseDate]:
    /^(\d{4})[-\/](\d{1,2})[-\/](\d{1,2})$/ *)
Definition format_year_first : RegExp :=
  regex [T Bol; Group [rep digit 4 4]; T (one dash_or_slash);
         Group [rep digit 1 2]; T (one dash_or_slash);
         Group [rep digit 1 2]; T Eol].

(** The array [formats] of [parseDate]. *)
Definition formats : list RegExp := [format_month_first; format_year_first].

(** The two-digit-year rule of the first format. *)
Definition window_year (year : num) : num :=
  if num_lt year (Int 100)
  then num_add year (if num_lt year (Int 50) then Int 2000 else Int 1900)
  else year.

(** The body of the [for] loop of [parseDate]; [index] is the position of
    [format] in [formats], so that [index = 0] is the test
    [format === formats[0]]. *)
Fixpoint parseDate_loop (index : nat) (fs : list RegExp) (dateString : jsstring)
  : option Date :=
  match fs with
  | [] => None
  | format :: rest =>
      match fst (String_match dateString format) with
      | Some m =>
          let g := fun i => parseInt10 (nth i m []) in
          let '(year, month, day) :=
            if index =? 0 then (window_year (g 3), g 1, g 2)
            else (g 1, g 2, g 3) in
          let date := new_Date year (num_sub month (Int 1)) day in
          if isValid date then Some date
          else parseDate_loop (S index) rest dateString
      | None => parseDate_loop (S index) rest dateString
      end
  end.

Section Host.

(** The number type of the host (IEEE doubles) and the built-ins used on
    it. *)
Variable number : Type.
Variable parseFloat : jsstring -> number.
Variable isNaN : number -> bool.

(** date-fns [parseISO]. *)
Variable parseISO : jsstring -> Date.

(** [parseDate]. *)
Definition parseDate (dateString : jsstring) : option Date :=
  match parseDate_loop 0 formats dateString with
  | Some date => Some date
  | None =>
      let isoDate := parseISO dateString in
      if isValid isoDate then Some isoDate else None
  end.

(** [s.replace(/[...]/g, '')] for a one-character pattern: the characters
    that match are dropped. *)
Definition remove_all (ic : bool) (cs : char_set) (s : jsstring) : jsstring :=
  filter (fun c => negb (char_matches ic cs c)) s.

(** [s.replace(',', '.')]: only the first comma is replaced. *)
Fixpoint replace_first_comma (s : jsstring) : jsstring :=
  match s with
  | [] => []
  | c :: r => if (c =? ch ",")%N then ch "." :: r else c :: replace_first_comma r
  end.

(** [parseAmount]. *)
Definition parseAmount (amountString : jsstring) : option number :=
  match amountString with
  | [] => None
  | _ :: _ =>
      (* /[$kr\s]/gi *)
      let cleaned :=
        trim (remove_all true
                (Class [CChar (ch "$"); CChar (ch "k"); CChar (ch "r"); CSpace])
                amountString) in
      let cleaned :=
        (* /,\d{2}$/ *)
        if fst (test (regex [T (one (Chr (ch ","))); T (rep digit 2 2); T Eol])
                     cleaned)
        then replace_first_comma (remove_all false space cleaned)
        else remove_all false (Chr (ch ",")) cleaned in
      let amount := parseFloat cleaned in
      if isNaN amount then None else Some amount
  end.

End Host.

End DateHelpers.

(* ================================================================== *)
(** ** hooks/useExpenses.ts: receiptDataToExpense *)
(* ================================================================== *)

Module Expenses.
Import JS Receipt DateHelpers.

Section Host.

(** The host's numbers: [zero] is the literal 0, and [number_truthy] is
    false exactly on 0, -0 and NaN. *)
Variable number : Type.
Variable zero : number.
Variable number_truthy : number -> bool.
Variable parseFloat : jsstring -> number.
Variable isNaN : number -> bool.
Variable parseISO : jsstring -> Date.

(** The object literal returned by [receiptDataToExpense]. *)
Record Expense := mkExpense {
  amount : number;
  description : jsstring;
  category : jsstring;
  date : Date;
  from : option jsstring;
  to : option jsstring;
  transactionType : option jsstring
}.

(** [receiptDataToExpense]; [now] is what [new Date()] gives when it is
    evaluated. *)
Definition receiptDataToExpense (now : Date) (data : BankReceiptData) : Expense :=
  let amount :=
    match Receipt.amount data with
    | Some (c :: s) => parseAmount number parseFloat isNaN (c :: s)
    | _ => None
    end in
  let date :=
    match Receipt.date data with
    | Some (c :: s) => parseDate parseISO (c :: s)
    | _ => None
    end in
  {| amount := match amount with
               | Some n => if number_truthy n then n else zero
               | None => zero
               end;
     description := match Receipt.to data with
                    | Some (c :: s) => c :: s
                    | _ => lit "Unknown transaction"
                    end;
     category := lit "Other";
     date := match date with
             | Some d => d
             | None => now
             end;
     from := Receipt.from data;
     to := Receipt.to data;
     transactionType := Receipt.transactionType data |}.

End Host.

End Expenses.

(* ================================================================== *)
(** ** The OCR pipeline: effects, exceptions and resources *)
(* ================================================================== *)

Module Pipeline.
Import JS Receipt.

(** Values that can be thrown (or reject a promise). *)
Inductive exn :=
| PDFLoadError (message : jsstring)
| PDFExtractionError (message : jsstring)
| Error (message : jsstring)     (* any other instance of Error *)
| NotAnError.                    (* a thrown value that is no Error *)

Inductive outcome (A : Type) :=
| Return (a : A)
| Throw (e : exn).
Arguments Return {A} a.
Arguments Throw {A} e.

(** What [worker.recognize] is given. *)
Inductive image_source :=
| TheFile
| DataURL (url : jsstring).

(** Calls that leave the module, in the order they are made. *)
Inductive event :=
| onProgress_call (progress : N)
| createWorker_call
| recognize_call (src : image_source)
| terminate_call
| arrayBuffer_call
| getDocument_call
| getPage_call
| getContext_call
| render_call
| destroy_call
| toDataURL_call
| console_error_call.

(** The calls made so far, the PDF documents loaded and not destroyed, and
    the OCR workers created and not terminated. *)
Record state := mkState {
  trace : list event;
  open_documents : nat;
  live_workers : nat
}.

(** How the libraries and the browser answer.  A rejected promise and a
    thrown exception are both [Throw]. *)
Record host := mkHost {
  createWorker : outcome unit;
  recognize : image_source -> outcome jsstring;
  terminate : outcome unit;
  arrayBuffer : outcome unit;
  getDocument : outcome unit;
  getPage : outcome unit;
  getContext : outcome bool;       (* [Return false]: the context is null *)
  render : outcome unit;
  destroy : outcome unit;
  toDataURL : outcome jsstring
}.

(** The part of a [File] the module reads. *)
Record File := mkFile {
  type : jsstring;
  size : N
}.

(** A computation that may throw and that acts on the state. *)
Definition M (A : Type) : Type := state -> outcome A * state.

(** Returning, sequencing ([await] included) and throwing. *)
Definition ret {A} (a : A) : M A := fun s => (Return a, s).

Definition bind {A B} (m : M A) (k : A -> M B) : M B :=
  fun s =>
    match m s with
    | (Return a, s') => k a s'
    | (Throw e, s') => (Throw e, s')
    end.

Definition throw {A} (e : exn) : M A := fun s => (Throw e, s).

(** [try { body } finally { fin }] *)
Definition try_finally {A} (body : M A) (fin : M unit) : M A :=
  fun s =>
    let (r, s1) := body s in
    match fin s1 with
    | (Return _, s2) => (r, s2)
    | (Throw e, s2) => (Throw e, s2)
    end.

(** [try { body } catch (err) { handler }] *)
Definition try_catch {A} (body : M A) (handler : exn -> M A) : M A :=
  fun s =>
    match body s with
    | (Return a, s') => (Return a, s')
    | (Throw e, s') => handler e s'
    end.

Notation "x <- m ;; k" := (bind m (fun x => k))
  (at level 61, m at next level, right associativity).
Notation "m ;;; k" := (bind m (fun _ => k))
  (at level 61, right associativity).

(** Recording a call. *)
Definition log (e : event) : M unit :=
  fun s => (Return tt, mkState (trace s ++ [e]) (open_documents s) (live_workers s)).

(** An outside call: it is recorded, then it returns or throws. *)
Definition call {A} (e : event) (answer : outcome A) : M A :=
  log e ;;; (fun s => (answer, s)).

(** Bookkeeping of the documents and workers that are alive. *)
Definition document_opened : M unit :=
  fun s => (Return tt, mkState (trace s) (S (open_documents s)) (live_workers s)).
Definition document_closed : M unit :=
  fun s => (Return tt, mkState (trace s) (pred (open_documents s)) (live_workers s)).
Definition worker_started : M unit :=
  fun s => (Return tt, mkState (trace s) (open_documents s) (S (live_workers s))).
Definition worker_stopped : M unit :=
  fun s => (Return tt, mkState (trace s) (open_documents s) (pred (live_workers s))).

(** The object returned by [parseBankReceiptPDF]. *)
Record result := mkResult {
  success : bool;
  data : option BankReceiptData;
  rawText : option jsstring;
  error : option jsstring
}.

(** The object of a failure: [{ success: false, error: message }]. *)
Definition failure (message : jsstring) : result :=
  mkResult false None None (Some message).

Section WithHost.

Variable h : host.

(** [pdfToImageDataURL].  Creating the canvas element, computing the
    viewport and sizing the canvas are taken not to fail; every awaited
    call and [getContext] and [toDataURL] are answered by the host. *)
Definition pdfToImageDataURL (file : File) : M jsstring :=
  call arrayBuffer_call (arrayBuffer h) ;;;
  call getDocument_call (getDocument h) ;;;
  document_opened ;;;
  call getPage_call (getPage h) ;;;
  context <- call getContext_call (getContext h) ;;
  if negb context then throw (Error (lit "Failed to get canvas context"))
  else
    call render_call (render h) ;;;
    call destroy_call (destroy h) ;;;
    document_closed ;;;
    call toDataURL_call (toDataURL h).

(** [file.type === 'application/pdf'] *)
Definition is_application_pdf (file : File) : bool :=
  eqb (type file) (lit "application/pdf").

(** [extractTextWithOCR] *)
Definition extractTextWithOCR (file : File) : M jsstring :=
  call createWorker_call (createWorker h) ;;;
  worker_started ;;;
  try_finally
    (imageSource <-
       (if is_application_pdf file
        then url <- pdfToImageDataURL file ;; ret (DataURL url)
        else ret TheFile) ;;
     call (recognize_call imageSource) (recognize h imageSource))
    (call terminate_call (terminate h) ;;; worker_stopped).

(** [onProgress?.(n)] *)
Definition report (onProgress : option (N -> outcome unit)) (n : N) : M unit :=
  match onProgress with
  | Some f => call (onProgress_call n) (f n)
  | None => ret tt
  end.

(** [10 * 1024 * 1024], the size limit in bytes. *)
Definition maxSize : N := 10 * 1024 * 1024.

(** The [try] block of [parseBankReceiptPDF]. *)
Definition attempt (file : File) (onProgress : option (N -> outcome unit))
  : M result :=
  if negb (includes (type file) (lit "pdf")) &&
     negb (includes (type file) (lit "image"))
  then throw (PDFLoadError
                (lit "Invalid file type. Please upload a PDF or image file."))
  else if (maxSize <? size file)%N
  then throw (PDFLoadError (lit "File size exceeds 10MB limit."))
  else if (size file =? 0)%N
  then throw (PDFLoadError (lit "File is empty."))
  else
    report onProgress 10 ;;;
    fullText <- extractTextWithOCR file ;;
    report onProgress 90 ;;;
    if length (trim fullText) =? 0
    then throw (PDFExtractionError
                  (lit "No text content found. The image might be too blurry or low quality."))
    else
      let data := parseBankReceiptText fullText in
      report onProgress 100 ;;;
      ret (mkResult true (Some data) (Some fullText) None).

(** The [catch] block of [parseBankReceiptPDF]; [console.error] is taken
    not to throw. *)
Definition recover (err : exn) : M result :=
  match err with
  | PDFLoadError message | PDFExtractionError message =>
      ret (failure message)
  | _ =>
      let errorMessage :=
        match err with
        | Error message => message
        | _ => lit "Unknown error occurred"
        end in
      log console_error_call ;;;
      ret (failure (lit "Failed to process file: " ++ errorMessage))
  end.

(** [parseBankReceiptPDF] *)
Definition parseBankReceiptPDF (file : File)
  (onProgress : option (N -> outcome unit)) : M result :=
  try_catch (attempt file onProgress) recover.

End WithHost.

(** Nothing called yet, nothing alive. *)
Definition initial : state := mkState [] 0 0.

End Pipeline.

(* ================================================================== *)
(** ** services/pdfParser.ts: extractPDFText *)
(* ================================================================== *)

Module PDFText.
Import JS Receipt Pipeline.

(** The object returned by [extractPDFText]. *)
Record result := mkResult {
  success : bool;
  text : option jsstring;
  error : option jsstring
}.

(** The object of a failure: [{ success: false, error: message }]. *)
Definition failure (message : jsstring) : result :=
  mkResult false None (Some message).

Section WithHost.

Variable h : host.

(** The [try] block of [extractPDFText]. *)
Definition attempt (file : File) (onProgress : option (N -> outcome unit))
  : M result :=
  if negb (includes (type file) (lit "pdf")) &&
     negb (includes (type file) (lit "image"))
  then throw (PDFLoadError
                (lit "Invalid file type. Please upload a PDF or image file."))
  else if (10 * 1024 * 1024 <? size file)%N
  then throw (PDFLoadError (lit "File size exceeds 10MB limit."))
  else
    report onProgress 10 ;;;
    text <- extractTextWithOCR h file ;;
    report onProgress 100 ;;;
    if length (trim text) =? 0
    then throw (PDFExtractionError (lit "No text content found."))
    else ret (mkResult true (Some text) None).

(** The [catch] block of [extractPDFText]. *)
Definition recover (err : exn) : M result :=
  match err with
  | PDFLoadError message | PDFExtractionError message =>
      ret (failure message)
  | _ =>
      let errorMessage :=
        match err with
        | Error message => message
        | _ => lit "Unknown error occurred"
        end in
      ret (failure (lit "Failed to extract text: " ++ errorMessage))
  end.

(** [extractPDFText] *)
Definition extractPDFText (file : File)
  (onProgress : option (N -> outcome unit)) : M result :=
  try_catch (attempt file onProgress) recover.

End WithHost.

End PDFText.

(* ================================================================== *)
(** ** hooks/useExpenses.ts: usePDFUpload *)
(* ================================================================== *)

Module Upload.
Import JS Receipt Pipeline.

(** The four state variables of the hook [usePDFUpload]. *)
Record upload_state := mkUpload {
  uploading : bool;
  error : option jsstring;
  parsedData : option BankReceiptData;
  rawText : option jsstring
}.

(** The setters of the state variables. *)
Definition setUploading (b : bool) (u : upload_state) : upload_state :=
  mkUpload b (error u) (parsedData u) (rawText u).
Definition setError (e : option jsstring) (u : upload_state) : upload_state :=
  mkUpload (uploading u) e (parsedData u) (rawText u).
Definition setParsedData (d : option BankReceiptData) (u : upload_state)
  : upload_state :=
  mkUpload (uploading u) (error u) d (rawText u).
Definition setRawText (t : option jsstring) (u : upload_state) : upload_state :=
  mkUpload (uploading u) (error u) (parsedData u) t.

(** The state of the hook when it is mounted. *)
Definition mounted : upload_state := mkUpload false None None None.

Section WithHost.

Variable h : host.

(** [uploadPDF]: the state of the hook and the state of the pipeline
    after the call. *)
Definition uploadPDF (file : File) (u : upload_state) (s : state)
  : upload_state * state :=
  let u := setUploading true u in
  let u := setError None u in
  let u := setParsedData None u in
  let u := setRawText None u in
  let (u, s) :=
    match parseBankReceiptPDF h file None s with
    | (Return result, s') =>
        (match success result, data result with
         | true, Some d =>                       (* result.success && result.data *)
             let u := setParsedData (Some d) u in
             setRawText (or_else (Pipeline.rawText result) None) u
         | _, _ =>
             setError (or_else (Pipeline.error result)
                               (Some (lit "Failed to parse PDF"))) u
         end, s')
    | (Throw err, s') =>
        let errorMessage :=
          match err with
          | PDFLoadError message | PDFExtractionError message | Error message =>
              message
          | NotAnError => lit "An unexpected error occurred"
          end in
        (setError (Some errorMessage) u, snd (log console_error_call s'))
    end in
  (setUploading false u, s).

(** [reset] *)
Definition reset (u : upload_state) : upload_state :=
  setRawText None (setParsedData None (setError None (setUploading false u))).

End WithHost.

End Upload.

(* ================================================================== *)
(** ** services/database.ts: the categories *)
(* ================================================================== *)

Module Database.
Import JS.

(** The [Category] interface. *)
Record Category := mkCategory {
  name : jsstring;
  icon : option jsstring;
  color : option jsstring
}.

(** The order of IndexedDB on string keys: by code units. *)
Fixpoint key_lt (a b : jsstring) : bool :=
  match a, b with
  | _, [] => false
  | [], _ :: _ => true
  | x :: a', y :: b' => (x <? y)%N || ((x =? y)%N && key_lt a' b')
  end.

(** The object store [categories] (key path [name]): its records in the
    order of their keys. *)
Definition category_store := list Category.

(** [store.get(key)] *)
Definition store_get (key : jsstring) (store : category_store) : option Category :=
  find (fun c => eqb (name c) key) store.

(** [store.put(value)]: the record with the key of [value] is replaced,
    or [value] is added at the place of its key. *)
Fixpoint store_put (value : Category) (store : category_store) : category_store :=
  match store with
  | [] => [value]
  | c :: rest =>
      if eqb (name c) (name value) then value :: rest
      else if key_lt (name value) (name c) then value :: c :: rest
      else c :: store_put value rest
  end.

(** [store.delete(key)] *)
Definition store_delete (key : jsstring) (store : category_store) : category_store :=
  filter (fun c => negb (eqb (name c) key)) store.

(** The array [defaultCategories]. *)
Definition defaultCategories : list Category :=
  [ mkCategory (lit "Food & Dining") (Some (lit "restaurant")) (Some (lit "#FF6B6B"));
    mkCategory (lit "Transportation") (Some (lit "car")) (Some (lit "#4ECDC4"));
    mkCategory (lit "Shopping") (Some (lit "shopping")) (Some (lit "#FFE66D"));
    mkCategory (lit "Entertainment") (Some (lit "entertainment")) (Some (lit "#95E1D3"));
    mkCategory (lit "Bills & Utilities") (Some (lit "receipt")) (Some (lit "#F38181"));
    mkCategory (lit "Healthcare") (Some (lit "health")) (Some (lit "#AA96DA"));
    mkCategory (lit "Other") (Some (lit "more")) (Some (lit "#FCBAD3")) ].

(** The [for] loop of [initializeDefaultCategories] over some categories. *)
Fixpoint initialize (cs : list Category) (store : category_store) : category_store :=
  match cs with
  | [] => store
  | category :: rest =>
      let store :=
        match store_get (name category) store with
        | Some existing => store
        | None => store_put category store
        end in
      initialize rest store
  end.

(** [initializeDefaultCategories] *)
Definition initializeDefaultCategories (store : category_store) : category_store :=
  initialize defaultCategories store.

(** The module variable [dbInstance] (is it set?) and the object store
    [categories] of the database, which outlives the page. *)
Record db := mkDb {
  dbInstance : bool;
  categories : category_store
}.

(** [getDatabase], on a database whose object stores exist. *)
Definition getDatabase (d : db) : db :=
  if dbInstance d then d
  else mkDb true (initializeDefaultCategories (categories d)).

(** [getAllCategories] *)
Definition getAllCategories (d : db) : list Category * db :=
  let d := getDatabase d in (categories d, d).

(** [addCategory] *)
Definition addCategory (category : Category) (d : db) : db :=
  let d := getDatabase d in
  mkDb (dbInstance d) (store_put category (categories d)).

(** [deleteCategory] *)
Definition deleteCategory (key : jsstring) (d : db) : db :=
  let d := getDatabase d in
  mkDb (dbInstance d) (store_delete key (categories d)).

(** Loading the page anew: the module variable is null again, the stored
    records are as they were. *)
Definition reload (d : db) : db := mkDb false (categories d).

End Database.

(* ================================================================== *)
(** * Vocabulary of the statements *)
(* ================================================================== *)

Import JS Regex Receipt DateHelpers Pipeline.

(** A string that does not start with white space. *)
Definition no_lead (s : jsstring) : Prop :=
  match s with
  | c :: _ => is_space c = false
  | [] => True
  end.

(** [counts] is a correct account of a match of [ts] at the start of [s]:
    every quantified atom consumed at least its minimum, and only
    characters of its set. *)
Fixpoint matched (ic : bool) (ts : list term) (counts : list nat) (s : jsstring)
  : Prop :=
  match ts, counts with
  | [], [] => True
  | Rep cs lo _ :: ts', k :: counts' =>
      lo <= k /\ k <= length s /\
      Forall (fun c => char_matches ic cs c = true) (firstn k s) /\
      matched ic ts' counts' (skipn k s)
  | Bol :: ts', 0 :: counts' => matched ic ts' counts' s
  | Eol :: ts', 0 :: counts' => s = [] /\ matched ic ts' counts' s
  | _, _ => False
  end.

(** The last [amount] pattern and the last [date] pattern. *)
Definition amount_fallback : RegExp := last (amount_patterns literals) (regex []).
Definition date_fallback : RegExp := last (date_patterns literals) (regex []).

(** A RegExp without the [g] and the [y] flag. *)
Definition plain (R : RegExp) : Prop := global R = false /\ sticky R = false.

(** The English example of the specification. *)
Definition english_receipt : jsstring :=
  lit "FROM: Alice Corp" ++ [LF] ++ lit "TO: Bob LLC" ++ [LF] ++
  lit "AMOUNT: $42.50" ++ [LF] ++ lit "DATE: 2025-03-14".

(** The Swedish example of the specification; 229 is U+00E5, the letter
    a with ring above. *)
Definition swedish_receipt : jsstring :=
  lit "Fr" ++ [229%N] ++ lit "n: Handlaren AB" ++ [LF] ++ lit "Belopp: 123,45 kr".

(** The same text with the two code points U+00C3 U+00A5 in place of
    U+00E5, as the keyword stands in the source file. *)
Definition swedish_receipt_as_in_source : jsstring :=
  lit "Fr" ++ [195%N; 165%N] ++ lit "n: Handlaren AB" ++ [LF] ++
  lit "Belopp: 123,45 kr".

(** The five fields of a record. *)
Definition fields (r : BankReceiptData) : list (option jsstring) :=
  [from r; to r; amount r; transactionType r; date r].

(** Two RegExp objects that differ at most in [lastIndex]. *)
Definition same_pattern (R R' : RegExp) : Prop :=
  source R = source R' /\ ignoreCase R = ignoreCase R' /\
  global R = global R' /\ sticky R = sticky R'.

(** Two tables of RegExp objects that differ at most in [lastIndex]. *)
Definition same_patterns (ps qs : receipt_patterns) : Prop :=
  Forall2 same_pattern (from_patterns ps) (from_patterns qs) /\
  Forall2 same_pattern (to_patterns ps) (to_patterns qs) /\
  Forall2 same_pattern (amount_patterns ps) (amount_patterns qs) /\
  Forall2 same_pattern (transactionType_patterns ps) (transactionType_patterns qs) /\
  Forall2 same_pattern (date_patterns ps) (date_patterns qs).

(** The literals with [lastIndex] set to 7 in every object. *)
Definition literals_moved : receipt_patterns :=
  let move := map (fun R => set_lastIndex R 7) in
  mkPatterns (move (from_patterns literals)) (move (to_patterns literals))
             (move (amount_patterns literals))
             (move (transactionType_patterns literals))
             (move (date_patterns literals)).

(** The declared media type names a PDF or an image. *)
Definition type_accepted (file : File) : bool :=
  includes (type file) (lit "pdf") || includes (type file) (lit "image").

(** The messages of the three validations. *)
Definition invalid_type_message : jsstring :=
  lit "Invalid file type. Please upload a PDF or image file.".
Definition too_large_message : jsstring := lit "File size exceeds 10MB limit.".
Definition empty_message : jsstring := lit "File is empty.".

(** The message of the first validation that a file fails, in the order
    of the source: type, upper size bound, emptiness. *)
Definition rejection (file : File) : option jsstring :=
  if negb (type_accepted file) then Some invalid_type_message
  else if (maxSize <? size file)%N then Some too_large_message
  else if (size file =? 0)%N then Some empty_message
  else None.

(** A host on which everything succeeds except that the canvas has no 2D
    context. *)
Definition host_without_canvas_context : host := {|
  createWorker := Return tt;
  recognize := fun _ => Return (lit "TOTAL 12.00");
  terminate := Return tt;
  arrayBuffer := Return tt;
  getDocument := Return tt;
  getPage := Return tt;
  getContext := Return false;
  render := Return tt;
  destroy := Return tt;
  toDataURL := Return (lit "data:image/png;base64,")
|}.

(** A PDF file of 2 KiB. *)
Definition a_pdf_file : File := {| type := lit "application/pdf"; size := 2048 |}.

(** The page cannot be rendered: the canvas has no context, or the render
    task fails with an ordinary [Error] of message [message]. *)
Definition page_not_rendered (h : host) (message : jsstring) : Prop :=
  (getContext h = Return false /\ message = lit "Failed to get canvas context") \/
  (getContext h = Return true /\ render h = Throw (Error message)).

(** A host on which every call succeeds. *)
Definition obliging_host : host := {|
  createWorker := Return tt;
  recognize := fun _ => Return (lit "TOTAL 12.00");
  terminate := Return tt;
  arrayBuffer := Return tt;
  getDocument := Return tt;
  getPage := Return tt;
  getContext := Return true;
  render := Return tt;
  destroy := Return tt;
  toDataURL := Return (lit "data:image/png;base64,")
|}.

(** A computation that leaves the count of live workers as it is. *)
Definition keeps_workers {A} (m : M A) : Prop :=
  forall s, live_workers (snd (m s)) = live_workers s.

(** The character is none of the given ASCII characters. *)
Definition none_of (letters : string) (c : code_unit) : bool :=
  negb (existsb (N.eqb c) (lit letters)).

(** The result of a search, moved [n] places to the right. *)
Definition shift (n : nat) (r : option (nat * list nat)) : option (nat * list nat) :=
  match r with
  | Some (i, counts) => Some (n + i, counts)
  | None => None
  end.

(** A transcription with a [Sender] and a [Payer] line. *)
Definition sender_and_payer : jsstring :=
  lit "Sender: Alice" ++ [LF] ++ lit "Payer: Bob".

(** A transcription without labels around a bare date. *)
Definition unlabelled_receipt : jsstring := lit "Receipt 2025-03-14 thank you".

(** The separators of the two formats. *)
Definition is_sep (c : code_unit) : Prop := c = ch "-" \/ c = ch "/".

(** The number written by a string of decimal digits. *)
Definition decimal (s : jsstring) : Z := digits_value 0 s.

(** Evaluation of a match on characters that are known by their sets. *)
Ltac eval_chars :=
  repeat (cbn -[char_matches is_digit Z.add Z.mul Z.sub Z.of_N new_Date
                window_year Z.ltb];
          repeat match goal with
                 | H : char_matches _ _ _ = _ |- _ => rewrite H
                 | H : is_digit _ = true |- _ => rewrite H
                 end).

(** The counts of a match respect the maxima of the quantifiers. *)
Fixpoint within_max (ts : list term) (counts : list nat) : Prop :=
  match ts, counts with
  | [], [] => True
  | Rep _ _ hi :: ts', k :: counts' =>
      match hi with Some h => k <= h | None => True end /\ within_max ts' counts'
  | _ :: ts', _ :: counts' => within_max ts' counts'
  | _, _ => False
  end.

(** A non-empty string of decimal digits. *)
Definition is_number (g : jsstring) : Prop :=
  g <> [] /\ Forall (fun c => is_digit c = true) g.

(** The shape of the two formats of [parseDate]: three runs of digits
    between the ends of the string, separated by a dash or a slash. *)
Definition date_format (a1 b1 a2 b2 a3 b3 : nat) : RegExp :=
  regex [T Bol; Group [rep digit a1 b1]; T (one dash_or_slash);
         Group [rep digit a2 b2]; T (one dash_or_slash);
         Group [rep digit a3 b3]; T Eol].

(** The class of the first replacement of [parseAmount], /[$kr\s]/gi. *)
Definition amount_noise : char_set :=
  Class [CChar (ch "$"); CChar (ch "k"); CChar (ch "r"); CSpace].

(** Currency marks and white space: what the first replacement drops. *)
Definition is_noise (c : code_unit) : bool := char_matches true amount_noise c.

(** The string that [parseAmount] hands to [parseFloat]. *)
Definition cleanAmount (amountString : jsstring) : jsstring :=
  let cleaned := trim (remove_all true amount_noise amountString) in
  if fst (test (regex [T (one (Chr (ch ","))); T (rep digit 2 2); T Eol]) cleaned)
  then replace_first_comma (remove_all false space cleaned)
  else remove_all false (Chr (ch ",")) cleaned.

(** Digits and thousands separators. *)
Definition is_digit_or_comma (c : code_unit) : bool :=
  is_digit c || (c =? ch ",")%N.

(** Three runs of digits with a separator after the first and after the
    second; the bounds are those on the lengths of the runs. *)
Definition date_shape (a1 b1 a2 b2 a3 b3 : nat) (v : jsstring) : Prop :=
  exists g1 s1 g2 s2 g3,
    v = g1 ++ s1 :: g2 ++ s2 :: g3 /\
    forallb is_digit g1 = true /\ a1 <= length g1 <= b1 /\
    forallb is_digit g2 = true /\ a2 <= length g2 <= b2 /\
    forallb is_digit g3 = true /\ a3 <= length g3 <= b3 /\
    is_sep s1 /\ is_sep s2.

(** The body of the capturing group of every date pattern. *)
Definition date_body (a1 b1 a2 b2 a3 b3 : nat) : list term :=
  [rep digit a1 b1; one dash_or_slash; rep digit a2 b2; one dash_or_slash;
   rep digit a3 b3].

(** The progress values reported by some calls. *)
Definition progress_reports (l : list event) : list N :=
  flat_map (fun e => match e with onProgress_call n => [n] | _ => [] end) l.

(** [m] only adds calls to the trace, and each call it adds satisfies [Q]. *)
Definition emits {A} (Q : event -> Prop) (m : M A) : Prop :=
  forall s, exists added,
    trace (snd (m s)) = trace s ++ added /\ Forall Q added.

(** A call that is no progress report. *)
Definition not_progress (e : event) : Prop :=
  match e with onProgress_call _ => False | _ => True end.

(** What one progress report adds to the trace. *)
Definition reported (onProgress : option (N -> outcome unit)) (n : N) : list N :=
  match onProgress with Some _ => [n] | None => [] end.

(** A list begins another. *)
Definition begins {A} (p l : list A) : Prop := exists r, l = p ++ r.

(** A host on which every call succeeds and the recognition returns only
    white space. *)
Definition host_reading_nothing : host := {|
  createWorker := Return tt;
  recognize := fun _ => Return (lit "   ");
  terminate := Return tt;
  arrayBuffer := Return tt;
  getDocument := Return tt;
  getPage := Return tt;
  getContext := Return true;
  render := Return tt;
  destroy := Return tt;
  toDataURL := Return (lit "data:image/png;base64,")
|}.

(** An image file of 2 KiB. *)
Definition an_image_file : File := {| type := lit "image/png"; size := 2048 |}.

(** A call that does not involve pdf.js or the canvas: no step of
    [pdfToImageDataURL], and no recognition of a rendered page. *)
Definition no_rendering (e : event) : Prop :=
  match e with
  | arrayBuffer_call | getDocument_call | getPage_call | getContext_call
  | render_call | destroy_call | toDataURL_call
  | recognize_call (DataURL _) => False
  | _ => True
  end.

(** A file that passes the validations by the letters [pdf] in its type,
    which is not [application/pdf]. *)
Definition an_x_pdf_file : File := {| type := lit "application/x-pdf"; size := 2048 |}.

(** The default category of a name, if there is one. *)
Definition default_of (key : jsstring) : option Database.Category :=
  find (fun c => eqb (Database.name c) key) Database.defaultCategories.

(* ================================================================== *)
(** * Properties *)
(* ================================================================== *)

(** ** Strings: trimming and substrings *)

Lemma trimStart_no_lead s : no_lead (trimStart s).
Proof.
  induction s as [|c r IH]; simpl; [exact I|].
  destruct (is_space c) eqn:E; [exact IH | exact E].
Qed.

Lemma trimStart_fixed s : no_lead s -> trimStart s = s.
Proof.
  destruct s as [|c r]; simpl; intros H; [reflexivity | now rewrite H].
Qed.

Lemma trimStart_suffix s : exists pre, s = pre ++ trimStart s.
Proof.
  induction s as [|c r [pre IH]]; simpl.
  - now exists [].
  - destruct (is_space c).
    + exists (c :: pre). simpl. now f_equal.
    + now exists [].
Qed.

Lemma trimEnd_prefix s : exists post, s = trimEnd s ++ post.
Proof.
  unfold trimEnd. destruct (trimStart_suffix (rev s)) as [pre H].
  exists (rev pre).
  rewrite <- rev_app_distr, <- H. symmetry. apply rev_involutive.
Qed.

Lemma trimEnd_no_lead s : no_lead s -> no_lead (trimEnd s).
Proof.
  intros H. destruct (trimEnd_prefix s) as [post E].
  destruct (trimEnd s) as [|c r]; [exact I|].
  rewrite E in H. exact H.
Qed.

Lemma trimEnd_fixed s : no_lead (rev s) -> trimEnd s = s.
Proof.
  intros H. unfold trimEnd. rewrite trimStart_fixed by exact H.
  apply rev_involutive.
Qed.

Lemma trim_no_lead s : no_lead (trim s).
Proof. apply trimEnd_no_lead, trimStart_no_lead. Qed.

Lemma trim_no_trail s : no_lead (rev (trim s)).
Proof.
  unfold trim, trimEnd. rewrite rev_involutive. apply trimStart_no_lead.
Qed.

(** Trimming twice is trimming once. *)
Lemma trim_idempotent s : trim (trim s) = trim s.
Proof.
  unfold trim at 1.
  rewrite (trimStart_fixed (trim s)) by apply trim_no_lead.
  apply trimEnd_fixed, trim_no_trail.
Qed.

Lemma is_substring_refl s : is_substring s s.
Proof. exists [], []. simpl. now rewrite app_nil_r. Qed.

Lemma is_substring_trans a b c :
  is_substring a b -> is_substring b c -> is_substring a c.
Proof.
  intros (p1 & q1 & E1) (p2 & q2 & E2). subst.
  exists (p2 ++ p1), (q1 ++ q2). now rewrite <- !app_assoc.
Qed.

Lemma trim_is_substring s : is_substring (trim s) s.
Proof.
  unfold trim.
  destruct (trimStart_suffix s) as [pre E1].
  destruct (trimEnd_prefix (trimStart s)) as [post E2].
  exists pre, post. now rewrite <- E2.
Qed.

Lemma substring_is_substring s start len : is_substring (substring s start len) s.
Proof.
  unfold substring.
  exists (firstn start s), (skipn len (skipn start s)).
  now rewrite firstn_skipn, firstn_skipn.
Qed.

(** White space is only removed at the ends: a character that is no white
    space survives trimming. *)
Lemma trimStart_keeps c s : In c s -> is_space c = false -> In c (trimStart s).
Proof.
  intros Hin Hc. induction s as [|a r IH]; simpl in *; [contradiction|].
  destruct (is_space a) eqn:Ea.
  - destruct Hin as [->|Hin]; [congruence | auto].
  - exact Hin.
Qed.

Lemma trim_keeps c s : In c s -> is_space c = false -> In c (trim s).
Proof.
  intros Hin Hc. unfold trim, trimEnd.
  rewrite <- in_rev. apply trimStart_keeps; [|exact Hc].
  rewrite <- in_rev. now apply trimStart_keeps.
Qed.

Lemma trim_nonempty c s : In c s -> is_space c = false -> trim s <> [].
Proof.
  intros Hin Hc E. pose proof (trim_keeps c s Hin Hc) as H.
  rewrite E in H. exact H.
Qed.

(** ** The matcher: what a successful match guarantees *)

Lemma try_down_some {A} (f : nat -> option A) lo k r :
  try_down f lo k = Some r -> exists j, lo <= j <= k /\ f j = Some r.
Proof.
  induction k as [|k IH]; cbn [try_down];
    [destruct (Nat.ltb_spec 0 lo) as [Hlt|Hge]
    |destruct (Nat.ltb_spec (S k) lo) as [Hlt|Hge]]; try discriminate.
  - destruct (f 0) eqn:E; [|discriminate].
    intros [= <-]. exists 0. split; [lia | exact E].
  - destruct (f (S k)) eqn:E.
    + intros [= <-]. exists (S k). split; [lia | exact E].
    + intros H. destruct (IH H) as (j & Hj & Hf).
      exists j. split; [lia | exact Hf].
Qed.

Lemma run_length_prefix ic cs s k :
  k <= run_length ic cs s ->
  k <= length s /\ Forall (fun c => char_matches ic cs c = true) (firstn k s).
Proof.
  revert k. induction s as [|c r IH]; intros k Hk; simpl in *.
  - assert (k = 0) by lia. subst. split; [lia | constructor].
  - destruct k as [|k]; [split; [lia | constructor]|].
    destruct (char_matches ic cs c) eqn:E; [|lia].
    destruct (IH k) as [H1 H2]; [lia|].
    split; [lia|]. simpl. constructor; assumption.
Qed.

Lemma capped_le hi n : capped hi n <= n.
Proof. destruct hi; simpl; lia. Qed.

Lemma match_terms_sound ic ts : forall pos s counts,
  match_terms ic ts pos s = Some counts -> matched ic ts counts s.
Proof.
  induction ts as [|t ts IH]; intros pos s counts H; simpl in H.
  - injection H as <-. exact I.
  - destruct t as [cs lo hi| |].
    + apply try_down_some in H. destruct H as (j & Hj & H).
      destruct (match_terms ic ts (pos + j) (skipn j s)) as [counts'|] eqn:E;
        [|discriminate].
      injection H as <-. simpl.
      destruct (run_length_prefix ic cs s j) as [H1 H2].
      { pose proof (capped_le hi (run_length ic cs s)). lia. }
      repeat split; try assumption; try lia.
      eapply IH; eassumption.
    + destruct (pos =? 0); [|discriminate].
      destruct (match_terms ic ts pos s) as [counts'|] eqn:E; [|discriminate].
      injection H as <-. simpl. eapply IH; eassumption.
    + destruct s; [|discriminate].
      destruct (match_terms ic ts pos []) as [counts'|] eqn:E; [|discriminate].
      injection H as <-. simpl. split; [reflexivity|]. eapply IH; eassumption.
Qed.

Lemma search_sound ic sticky ts : forall s pos index counts,
  search ic sticky ts pos s = Some (index, counts) ->
  exists n, index = pos + n /\ n <= length s /\ matched ic ts counts (skipn n s).
Proof.
  induction s as [|c r IH]; intros pos index counts H; simpl in H.
  - destruct (match_terms ic ts pos []) eqn:E.
    + injection H as <- <-. exists 0. simpl. repeat split; try lia.
      eapply match_terms_sound; eassumption.
    + destruct sticky; discriminate.
  - destruct (match_terms ic ts pos (c :: r)) eqn:E.
    + injection H as <- <-. exists 0. simpl. repeat split; try lia.
      eapply match_terms_sound; eassumption.
    + destruct sticky; [discriminate|].
      apply IH in H. destruct H as (n & -> & Hn & Hm).
      exists (S n). simpl. repeat split; try lia. exact Hm.
Qed.

(** What [extractField] returns for a RegExp without the [g] and [y] flags:
    the trimmed first capture of a match. *)
Lemma extractField_inv text R v :
  global R = false -> sticky R = false ->
  fst (extractField text R) = Some v ->
  exists index counts cap,
    matched (ignoreCase R) (terms_of (source R)) counts (skipn index text) /\
    nth_error (captures (source R) counts index text) 0 = Some cap /\
    v = trim cap.
Proof.
  intros Hg Hy. unfold extractField, String_match, RegExpBuiltinExec.
  rewrite Hg, Hy. simpl.
  destruct (search _ _ _ _ _) as [[index counts]|] eqn:E; simpl; [|discriminate].
  destruct (captures (source R) counts index text) as [|cap caps] eqn:Ec;
    simpl; [discriminate|].
  intros [= <-].
  apply search_sound in E. destruct E as (n & -> & _ & Hm).
  exists n, counts, cap. simpl in *. rewrite Ec. auto.
Qed.

Lemma captures_substrings ps : forall counts pos input,
  Forall (fun c => is_substring c input) (captures ps counts pos input).
Proof.
  induction ps as [|p ps IH]; intros counts pos input; simpl.
  - constructor.
  - destruct p as [t|body].
    + apply IH.
    + constructor; [apply substring_is_substring | apply IH].
Qed.

(** Every value of [extractField] is trimmed and occurs in the text. *)
Lemma extractField_trimmed_substring text R v :
  global R = false -> sticky R = false ->
  fst (extractField text R) = Some v ->
  trim v = v /\ is_substring v text.
Proof.
  intros Hg Hy H.
  destruct (extractField_inv text R v Hg Hy H) as (index & counts & cap & _ & Hc & ->).
  split; [apply trim_idempotent|].
  eapply is_substring_trans; [apply trim_is_substring|].
  apply nth_error_In in Hc.
  pose proof (captures_substrings (source R) counts index text) as HF.
  rewrite Forall_forall in HF. now apply HF.
Qed.

(** The value of an [||] chain is the value of one of its patterns; when
    it is the empty string it is the value of the last pattern. *)
Lemma or_chain_value text rs v :
  fst (or_chain text rs) = Some v ->
  (exists r, In r rs /\ fst (extractField text r) = Some v) /\
  (v <> [] \/ fst (extractField text (last rs (regex []))) = Some v).
Proof.
  induction rs as [|r rest IH]; simpl; [discriminate|].
  destruct (extractField text r) as [v0 r'] eqn:E.
  destruct rest as [|r2 rest'].
  - simpl. intros ->. split.
    + exists r. rewrite E. auto.
    + right. now rewrite E.
  - destruct (truthy v0) eqn:Et.
    + simpl. intros ->. split.
      * exists r. rewrite E. auto.
      * left. destruct v; [discriminate | discriminate].
    + destruct (or_chain text (r2 :: rest')) as [v' rest''] eqn:E2.
      simpl in *. intros ->. destruct (IH eq_refl) as [(r0 & Hin & H0) Hl].
      split; [exists r0; auto | exact Hl].
Qed.

Lemma In_substring s i c start len :
  nth_error s i = Some c -> start <= i < start + len -> In c (substring s start len).
Proof.
  intros H Hi. unfold substring.
  apply nth_error_In with (n := i - start).
  rewrite nth_error_firstn.
  destruct (Nat.ltb_spec (i - start) len); [|lia].
  rewrite nth_error_skipn. now replace (start + (i - start)) with i by lia.
Qed.

Lemma Forall_firstn_head {A} (P : A -> Prop) k (s : list A) :
  1 <= k -> Forall P (firstn k s) -> k <= length s ->
  exists c, nth_error s 0 = Some c /\ P c.
Proof.
  intros Hk HF Hlen. destruct s as [|c r]; [simpl in Hlen; lia|].
  destruct k; [lia|]. simpl in HF. inversion HF; subst.
  exists c. auto.
Qed.

(** Characters of the sets [\.] and [[0-9]] are no white space. *)
Lemma in_set_exact members c :
  in_set false members c = true -> In c members.
Proof.
  unfold in_set. rewrite existsb_exists. intros (a & Hin & Ha).
  cbn in Ha. apply N.eqb_eq in Ha. now subst.
Qed.

Lemma dot_not_space c : char_matches false dot c = true -> is_space c = false.
Proof.
  intros H. apply in_set_exact in H. simpl in H.
  destruct H as [<-|[]]. reflexivity.
Qed.

Lemma digit_not_space c : char_matches false digit c = true -> is_space c = false.
Proof.
  intros H. apply in_set_exact in H. cbn in H.
  repeat (destruct H as [<-|H]; [reflexivity|]). contradiction.
Qed.

(** A value of the last [amount] pattern contains the decimal point of
    the capture, so it is not empty. *)
Lemma amount_fallback_nonempty text v :
  fst (extractField text amount_fallback) = Some v -> v <> [].
Proof.
  intros H. apply extractField_inv in H; [|reflexivity|reflexivity].
  destruct H as (index & counts & cap & Hm & Hc & ->).
  unfold amount_fallback in *. cbn -[char_matches substring] in Hm, Hc.
  destruct counts as [|k1 [|k2 [|k3 [|k4 [|k5 [|]]]]]]; try tauto;
    try (decompose [and] Hm; tauto).
  cbn -[substring] in Hc. injection Hc as <-.
  destruct Hm as (_ & _ & _ & _ & _ & _ & _ & _ & _ & H4 & L4 & F4 & _).
  destruct (Forall_firstn_head _ _ _ H4 F4 L4) as (c & Hn & Hd).
  rewrite !nth_error_skipn in Hn.
  apply (trim_nonempty c); [|now apply dot_not_space].
  eapply In_substring; [exact Hn | lia].
Qed.

(** A value of the last [date] pattern starts with a digit. *)
Lemma date_fallback_nonempty text v :
  fst (extractField text date_fallback) = Some v -> v <> [].
Proof.
  intros H. apply extractField_inv in H; [|reflexivity|reflexivity].
  destruct H as (index & counts & cap & Hm & Hc & ->).
  unfold date_fallback in *. cbn -[char_matches substring] in Hm, Hc.
  destruct counts as [|k1 [|k2 [|k3 [|k4 [|k5 [|]]]]]]; try tauto;
    try (decompose [and] Hm; tauto).
  cbn -[substring] in Hc. injection Hc as <-.
  destruct Hm as (H1 & L1 & F1 & _).
  destruct (Forall_firstn_head _ _ _ H1 F1 L1) as (c & Hn & Hd).
  rewrite !nth_error_skipn in Hn.
  apply (trim_nonempty c); [|now apply digit_not_space].
  eapply In_substring; [exact Hn | lia].
Qed.

(** No literal of [parseBankReceiptText] carries the [g] or the [y] flag. *)
Lemma literals_plain :
  Forall plain (from_patterns literals) /\
  Forall plain (to_patterns literals) /\
  Forall plain (amount_patterns literals) /\
  Forall plain (transactionType_patterns literals) /\
  Forall plain (date_patterns literals).
Proof. repeat split; repeat constructor. Qed.

(** Each field of the record is the value of its [||] chain. *)
Lemma parseBankReceiptText_fields text :
  parseBankReceiptText text =
  mkReceipt (fst (or_chain text (from_patterns literals)))
            (fst (or_chain text (to_patterns literals)))
            (fst (or_chain text (amount_patterns literals)))
            (fst (or_chain text (transactionType_patterns literals)))
            (fst (or_chain text (date_patterns literals))).
Proof.
  unfold parseBankReceiptText, parseBankReceiptText_with.
  destruct (or_chain text (from_patterns literals)).
  destruct (or_chain text (to_patterns literals)).
  destruct (or_chain text (amount_patterns literals)).
  destruct (or_chain text (transactionType_patterns literals)).
  destruct (or_chain text (date_patterns literals)).
  reflexivity.
Qed.

Lemma or_chain_trimmed_substring text rs v :
  Forall plain rs -> fst (or_chain text rs) = Some v ->
  trim v = v /\ is_substring v text.
Proof.
  intros Hp H. apply or_chain_value in H. destruct H as [(r & Hin & Hr) _].
  rewrite Forall_forall in Hp. destruct (Hp r Hin) as [Hg Hy].
  now apply (extractField_trimmed_substring text r).
Qed.

Lemma try_down_ext {A} (f g : nat -> option A) lo k :
  (forall j, f j = g j) -> try_down f lo k = try_down g lo k.
Proof.
  intros H. induction k as [|k IH]; cbn [try_down]; rewrite H.
  - reflexivity.
  - now rewrite IH.
Qed.

(** Without [^] a match does not depend on the index at which it is tried. *)
Lemma match_terms_any_pos ic ts : forall pos pos' s,
  ~ In Bol ts -> match_terms ic ts pos s = match_terms ic ts pos' s.
Proof.
  induction ts as [|t ts IH]; intros pos pos' s Hno; [reflexivity|].
  assert (Hno' : ~ In Bol ts) by (intros H; apply Hno; now right).
  destruct t as [cs lo hi| |]; cbn [match_terms].
  - apply try_down_ext. intros j. now rewrite (IH (pos + j) (pos' + j)).
  - exfalso. apply Hno. now left.
  - destruct s; [|reflexivity]. now rewrite (IH pos pos').
Qed.

Lemma search_shift ic st ts n : forall s pos,
  ~ In Bol ts ->
  search ic st ts (n + pos) s = shift n (search ic st ts pos s).
Proof.
  induction s as [|c r IH]; intros pos Hno; cbn [search];
    rewrite (match_terms_any_pos ic ts (n + pos) pos) by exact Hno;
    destruct (match_terms ic ts pos _); try reflexivity;
    destruct st; try reflexivity.
  rewrite <- IH by exact Hno. f_equal. lia.
Qed.

(** A prefix on which the first atom of the pattern never matches is
    skipped by the search. *)
Lemma search_skip_prefix ic cs lo hi ts pre : forall rest pos,
  1 <= lo ->
  Forall (fun c => char_matches ic cs c = false) pre ->
  search ic false (Rep cs lo hi :: ts) pos (pre ++ rest) =
  search ic false (Rep cs lo hi :: ts) (pos + length pre) rest.
Proof.
  intros rest pos Hlo H. revert pos.
  induction H as [|c pre Hc Hpre IH]; intros pos; cbn [app length].
  - f_equal. lia.
  - cbn [search match_terms run_length]. rewrite Hc.
    replace (capped hi 0) with 0 by (destruct hi; simpl; lia).
    cbn [try_down]. destruct (Nat.ltb_spec 0 lo); [|lia].
    rewrite IH. f_equal. lia.
Qed.

(** The search fails on a text on which the first atom never matches. *)
Lemma search_no_first_char ic cs lo hi ts s pos :
  1 <= lo ->
  Forall (fun c => char_matches ic cs c = false) s ->
  search ic false (Rep cs lo hi :: ts) pos s = None.
Proof.
  intros Hlo H. rewrite <- (app_nil_r s).
  rewrite search_skip_prefix by assumption.
  cbn [search match_terms run_length].
  replace (capped hi 0) with 0 by (destruct hi; simpl; lia).
  cbn [try_down]. now destruct (Nat.ltb_spec 0 lo); [|lia].
Qed.

Lemma substring_skip_prefix pre rest i len :
  substring (pre ++ rest) (length pre + i) len = substring rest i len.
Proof.
  unfold substring. f_equal.
  rewrite skipn_app. rewrite skipn_all2 by lia.
  now replace (length pre + i - length pre) with i by lia.
Qed.

Lemma captures_skip_prefix ps pre rest : forall counts i,
  captures ps counts (length pre + i) (pre ++ rest) = captures ps counts i rest.
Proof.
  induction ps as [|p ps IH]; intros counts i; cbn [captures]; [reflexivity|].
  destruct p as [t|body].
  - rewrite <- Nat.add_assoc. apply IH.
  - rewrite substring_skip_prefix. f_equal.
    rewrite <- Nat.add_assoc. apply IH.
Qed.

(** Such a prefix does not change what [extractField] returns. *)
Lemma extractField_skip_prefix R cs lo hi ts pre rest :
  plain R -> terms_of (source R) = Rep cs lo hi :: ts -> 1 <= lo ->
  ~ In Bol ts ->
  Forall (fun c => char_matches (ignoreCase R) cs c = false) pre ->
  fst (extractField (pre ++ rest) R) = fst (extractField rest R).
Proof.
  intros [Hg Hy] Hts Hlo Hno Hpre.
  unfold extractField, String_match, RegExpBuiltinExec.
  rewrite Hg, Hy, Hts. cbn [orb skipn Nat.ltb Nat.leb].
  rewrite search_skip_prefix by assumption.
  replace (0 + length pre) with (length pre + 0) by lia.
  rewrite search_shift.
  2:{ intros [H|H]; [discriminate | contradiction]. }
  destruct (search _ _ _ 0 rest) as [[i counts]|]; cbn [shift]; [|reflexivity].
  cbn [fst]. f_equal. cbn [nth_error].
  now rewrite captures_skip_prefix.
Qed.

(** With [ignoreCase], an upper-case ASCII letter is the canonical form
    of itself and of its lower-case form only. *)
Lemma Canonicalize_upper c u :
  (65 <= u <= 90)%N -> Canonicalize true c = u -> c = u \/ c = (u + 32)%N.
Proof.
  intros Hu. unfold Canonicalize. cbn [negb].
  destruct (N.leb_spec 97 c), (N.leb_spec c 122); cbn [andb]; try lia;
  destruct (N.leb_spec 224 c), (N.leb_spec c 254); cbn [andb]; try lia;
  try (destruct (N.eqb_spec c 247); cbn [negb]; try lia);
  destruct (N.eqb_spec c 255); try lia;
  destruct (N.eqb_spec c 181); try lia.
Qed.

Lemma letter_avoided l c :
  (65 <= l <= 90)%N -> c <> l -> c <> (l + 32)%N ->
  char_matches true (Chr l) c = false.
Proof.
  intros Hl H1 H2. cbn [char_matches in_set existsb]. rewrite orb_false_r.
  apply N.eqb_neq. intros E.
  assert (Hc : Canonicalize true l = l).
  { unfold Canonicalize. cbn [negb].
    destruct (N.leb_spec 97 l); cbn [andb]; [lia|].
    destruct (N.leb_spec 224 l); cbn [andb]; [lia|].
    destruct (N.eqb_spec l 255); [lia|]. destruct (N.eqb_spec l 181); [lia|].
    reflexivity. }
  rewrite Hc in E. symmetry in E.
  destruct (Canonicalize_upper c l Hl E); contradiction.
Qed.

Lemma none_of_spec letters c x :
  none_of letters c = true -> In x (lit letters) -> c <> x.
Proof.
  unfold none_of. rewrite negb_true_iff. intros H Hin ->.
  assert (E : existsb (N.eqb x) (lit letters) = true).
  { apply existsb_exists. exists x. split; [exact Hin | apply N.eqb_refl]. }
  congruence.
Qed.

Lemma or_chain_all_none text rs :
  Forall (fun p => fst (extractField text p) = None) rs ->
  fst (or_chain text rs) = None.
Proof.
  induction 1 as [|p rs Hp Hrs IH]; [reflexivity|].
  cbn [or_chain]. destruct (extractField text p) as [v p']. cbn [fst] in Hp.
  subst v. destruct rs as [|q rest]; [reflexivity|]. cbn [truthy].
  destruct (or_chain text (q :: rest)). exact IH.
Qed.

(** ** Field extraction: priority of the patterns *)

(** The value of an [||] chain is the value of the first pattern whose
    trimmed capture is not empty; the patterns after it play no part. *)
Lemma or_chain_first_truthy text pre r post :
  Forall (fun p => truthy (fst (extractField text p)) = false) pre ->
  truthy (fst (extractField text r)) = true ->
  fst (or_chain text (pre ++ r :: post)) = fst (extractField text r).
Proof.
  intros Hpre Hr. induction Hpre as [|p pre Hp Hpre IH]; cbn [app or_chain].
  - destruct (extractField text r) as [v r'] eqn:E. cbn [fst] in *.
    destruct post; [reflexivity|]. now rewrite Hr.
  - destruct (extractField text p) as [v p'] eqn:E. cbn [fst] in Hp.
    destruct (pre ++ r :: post) as [|q rest] eqn:El.
    + destruct pre; discriminate.
    + rewrite Hp. destruct (or_chain text (q :: rest)) as [v' rest'].
      exact IH.
Qed.

Lemma or_chain_head_truthy text r rest :
  truthy (fst (extractField text r)) = true ->
  fst (or_chain text (r :: rest)) = fst (extractField text r).
Proof. apply (or_chain_first_truthy text [] r rest). constructor. Qed.

(** The label priority of [from]: when the [FROM] pattern gives nothing
    and the [Sender] pattern gives a value, that value is the sender,
    whatever the [Payer] pattern and the Swedish pattern would give. *)
Lemma sender_wins_over_payer text v :
  truthy (fst (extractField text (label_line (word "FROM")))) = false ->
  fst (extractField text (label_line (word "Sender"))) = Some v -> v <> [] ->
  from (parseBankReceiptText text) = Some v.
Proof.
  intros Hfrom Hsender Hv.
  rewrite parseBankReceiptText_fields. cbn [from].
  change (from_patterns literals)
    with ([label_line (word "FROM")] ++
          label_line (word "Sender") ::
          [label_line (word "Payer"); label_line Fran_keyword]).
  rewrite or_chain_first_truthy.
  - exact Hsender.
  - repeat constructor. exact Hfrom.
  - rewrite Hsender. destruct v; [contradiction | reflexivity].
Qed.

Lemma sender_wins_over_payer_witness :
  from (parseBankReceiptText sender_and_payer) = Some (lit "Alice").
Proof.
  apply (sender_wins_over_payer sender_and_payer (lit "Alice")).
  - vm_compute. reflexivity.
  - vm_compute. reflexivity.
  - discriminate.
Defined.

(** ** Field extraction: the English example inside a longer text *)

Section EnglishReceipt.

(** Text before and after the example: before it, no digit and none of
    the letters with which a pattern that is tried begins; after it, none
    of the letters with which a labelled pattern that must fail begins. *)
Variables pre post : jsstring.
Hypothesis Hpre :
  Forall (fun c => none_of "fFtTaAdDpP" c = true /\ is_digit c = false) pre.
Hypothesis Hpost : Forall (fun c => none_of "tTdDpP" c = true) post.

Ltac avoided H :=
  eapply Forall_impl; [|exact H]; cbn beta;
  first [intros ? [? _] | intros ? ?];
  apply letter_avoided; [cbn; lia | |];
  match goal with
  | Hc : none_of _ _ = true |- _ => apply (none_of_spec _ _ _ Hc); cbn; tauto
  end.

Lemma pre_F : Forall (fun c => char_matches true (Chr (ch "F")) c = false) pre.
Proof. avoided Hpre. Qed.

Lemma pre_T : Forall (fun c => char_matches true (Chr (ch "T")) c = false) pre.
Proof. avoided Hpre. Qed.

Lemma pre_A : Forall (fun c => char_matches true (Chr (ch "A")) c = false) pre.
Proof. avoided Hpre. Qed.

Lemma pre_D : Forall (fun c => char_matches true (Chr (ch "D")) c = false) pre.
Proof. avoided Hpre. Qed.

Lemma pre_P : Forall (fun c => char_matches true (Chr (ch "P")) c = false) pre.
Proof. avoided Hpre. Qed.

Lemma post_T : Forall (fun c => char_matches true (Chr (ch "T")) c = false) post.
Proof. avoided Hpost. Qed.

Lemma post_D : Forall (fun c => char_matches true (Chr (ch "D")) c = false) post.
Proof. avoided Hpost. Qed.

Lemma post_P : Forall (fun c => char_matches true (Chr (ch "P")) c = false) post.
Proof. avoided Hpost. Qed.

Lemma pre_digit : Forall (fun c => char_matches false digit c = false) pre.
Proof.
  eapply Forall_impl; [|exact Hpre]. cbn beta. intros c [_ Hd].
  destruct (char_matches false digit c) eqn:E; [|reflexivity].
  apply in_set_exact in E. cbn in E.
  repeat (destruct E as [<-|E]; [discriminate Hd|]). contradiction.
Qed.

(** The value of one pattern on the whole text: the prefix is skipped, the
    example is matched by computation, and a search that runs into the
    text after the example fails there. *)
Ltac field_value Hp Hq :=
  erewrite extractField_skip_prefix;
    [ | split; reflexivity | cbn; reflexivity | lia
      | cbn; intuition discriminate | exact Hp ];
  unfold extractField, String_match, RegExpBuiltinExec; cbn;
  unfold one;
  try (rewrite search_no_first_char by (try exact Hq; lia));
  reflexivity.

Lemma embedded_from :
  fst (or_chain (pre ++ english_receipt ++ post) (from_patterns literals)) =
  Some (lit "Alice Corp").
Proof.
  cbn [from_patterns literals]. rewrite or_chain_head_truthy.
  - field_value pre_F post_T.
  - replace (fst (extractField _ _)) with (Some (lit "Alice Corp"));
      [reflexivity | symmetry; field_value pre_F post_T].
Qed.

Lemma embedded_to :
  fst (or_chain (pre ++ english_receipt ++ post) (to_patterns literals)) =
  Some (lit "Bob LLC").
Proof.
  cbn [to_patterns literals]. rewrite or_chain_head_truthy.
  - field_value pre_T post_T.
  - replace (fst (extractField _ _)) with (Some (lit "Bob LLC"));
      [reflexivity | symmetry; field_value pre_T post_T].
Qed.

Lemma embedded_amount :
  fst (or_chain (pre ++ english_receipt ++ post) (amount_patterns literals)) =
  Some (lit "42.50").
Proof.
  cbn [amount_patterns literals]. rewrite or_chain_head_truthy.
  - field_value pre_A post_T.
  - replace (fst (extractField _ _)) with (Some (lit "42.50"));
      [reflexivity | symmetry; field_value pre_A post_T].
Qed.

Lemma embedded_transactionType :
  fst (or_chain (pre ++ english_receipt ++ post)
         (transactionType_patterns literals)) = None.
Proof.
  apply or_chain_all_none. cbn [transactionType_patterns literals].
  repeat constructor.
  - field_value pre_T post_T.
  - field_value pre_T post_T.
  - field_value pre_P post_P.
  - field_value pre_T post_T.
  - field_value pre_T post_T.
Qed.

Lemma embedded_date :
  fst (or_chain (pre ++ english_receipt ++ post) (date_patterns literals)) =
  Some (lit "2025-03-14").
Proof.
  cbn [date_patterns literals].
  match goal with
  | |- fst (or_chain _ [?p1; ?p2; ?p3; ?p4; ?p5]) = _ =>
      change [p1; p2; p3; p4; p5] with ([p1; p2; p3] ++ p4 :: [p5]);
      assert (E1 : fst (extractField (pre ++ english_receipt ++ post) p1) = None)
        by field_value pre_D post_D;
      assert (E2 : fst (extractField (pre ++ english_receipt ++ post) p2) = None)
        by field_value pre_T post_T;
      assert (E3 : fst (extractField (pre ++ english_receipt ++ post) p3) = None)
        by field_value pre_D post_D;
      assert (E4 : fst (extractField (pre ++ english_receipt ++ post) p4) =
                   Some (lit "2025-03-14"))
        by field_value pre_digit post_D
  end.
  rewrite or_chain_first_truthy.
  - exact E4.
  - repeat constructor; [rewrite E1 | rewrite E2 | rewrite E3]; reflexivity.
  - rewrite E4. reflexivity.
Qed.

End EnglishReceipt.

(** ** Field extraction: the worked examples *)

(** C1, as amended: on every transcription that contains the text
    "FROM: Alice Corp\nTO: Bob LLC\nAMOUNT: $42.50\nDATE: 2025-03-14"
    after a text without digits and without the letters f, t, a, d, p (in
    either case) and before a text without the letters t, d, p, and so on
    that text itself, [parseBankReceiptText] returns from = "Alice Corp",
    to = "Bob LLC", amount = "42.50" (the capturing group of the AMOUNT
    pattern starts after the optional currency symbol), no transaction
    type, and date = "2025-03-14". *)
Theorem english_receipt_fields : forall pre post,
  Forall (fun c => none_of "fFtTaAdDpP" c = true /\ is_digit c = false) pre ->
  Forall (fun c => none_of "tTdDpP" c = true) post ->
  parseBankReceiptText (pre ++ english_receipt ++ post) =
  mkReceipt (Some (lit "Alice Corp")) (Some (lit "Bob LLC"))
            (Some (lit "42.50")) None (Some (lit "2025-03-14")).
Proof.
  intros pre post Hpre Hpost. rewrite parseBankReceiptText_fields.
  rewrite embedded_from by assumption.
  rewrite embedded_to by assumption.
  rewrite embedded_amount by assumption.
  rewrite embedded_transactionType by assumption.
  rewrite embedded_date by assumption.
  reflexivity.
Qed.

Lemma english_receipt_fields_witness :
  parseBankReceiptText english_receipt =
  mkReceipt (Some (lit "Alice Corp")) (Some (lit "Bob LLC"))
            (Some (lit "42.50")) None (Some (lit "2025-03-14")).
Proof.
  exact (english_receipt_fields [] [] (Forall_nil _) (Forall_nil _)).
Defined.

(** C1, counterexample: the amount of the English example is not the raw
    string "$42.50".  (And text after the example matters: a later line
    with a labelled date is preferred to the bare date of the example.) *)
Lemma english_receipt_amount_without_symbol :
  amount (parseBankReceiptText english_receipt) <> Some (lit "$42.50") /\
  date (parseBankReceiptText
          (english_receipt ++ [LF] ++ lit "Datum: 1/2/33")) = Some (lit "1/2/33").
Proof. split; [vm_compute; discriminate | vm_compute; reflexivity]. Qed.

(** C3, the code at the Swedish example: no [from] pattern matches the
    word written with U+00E5, so [from] is undefined; the amount "123,45"
    is the value of the third amount pattern ([Belopp]), the first two
    having no match.  On the text spelled as the keyword is stored in the
    source file, [from] is "Handlaren AB". *)
Theorem swedish_receipt_fields :
  parseBankReceiptText swedish_receipt =
    mkReceipt None None (Some (lit "123,45")) None None /\
  map (fun r => fst (extractField swedish_receipt r)) (amount_patterns literals) =
    [None; None; Some (lit "123,45"); Some (lit "123,45"); None] /\
  map (fun r => fst (extractField swedish_receipt r)) (from_patterns literals) =
    [None; None; None; None] /\
  from (parseBankReceiptText swedish_receipt_as_in_source) =
    Some (lit "Handlaren AB").
Proof. vm_compute. repeat split. Qed.

(** ** Field extraction: the invariant of the record *)

(** C2, as amended: every field that is present is equal to its own trim
    and occurs in the transcription as a contiguous substring; an amount
    or a date that is present is moreover not empty. *)
Theorem parseBankReceiptText_invariant : forall text,
  (forall v, In (Some v) (fields (parseBankReceiptText text)) ->
             trim v = v /\ is_substring v text) /\
  (forall v, amount (parseBankReceiptText text) = Some v \/
             date (parseBankReceiptText text) = Some v -> v <> []).
Proof.
  intros text. rewrite parseBankReceiptText_fields.
  destruct literals_plain as (Pf & Pt & Pa & Pty & Pd).
  split.
  - intros v Hin. unfold fields in Hin.
    cbn [In from to amount transactionType date] in Hin.
    destruct Hin as [H|[H|[H|[H|[H|[]]]]]];
      (eapply or_chain_trimmed_substring; [|exact H]; assumption).
  - intros v [H|H]; cbn [amount date] in H; apply or_chain_value in H;
      destruct H as [_ [H|H]]; try exact H.
    + now apply (amount_fallback_nonempty text).
    + now apply (date_fallback_nonempty text).
Qed.

(** C2, counterexample: on "Typ: " the transaction type is present and is
    the empty string (the last pattern of the chain captures one blank). *)
Lemma transactionType_present_and_empty :
  transactionType (parseBankReceiptText (lit "Typ: ")) = Some [] /\
  ~ (forall text v, In (Some v) (fields (parseBankReceiptText text)) -> v <> []).
Proof.
  assert (E : transactionType (parseBankReceiptText (lit "Typ: ")) = Some [])
    by (vm_compute; reflexivity).
  split; [exact E|].
  intros H. apply (H (lit "Typ: ") []); [|reflexivity].
  unfold fields. rewrite E. simpl. auto.
Qed.

(** ** Field extraction: no hidden state *)

(** Without the [g] and [y] flags a match neither reads nor writes
    [lastIndex]. *)
Lemma extractField_ignores_lastIndex text R R' :
  plain R' -> same_pattern R R' ->
  extractField text R = (fst (extractField text R'), R).
Proof.
  intros [Hg Hy] (Hs & Hi & Hg' & Hy').
  unfold extractField, String_match, RegExpBuiltinExec.
  rewrite Hg', Hy', Hs, Hi, Hg, Hy. simpl.
  destruct (search _ _ _ _ _) as [[index counts]|]; reflexivity.
Qed.

Lemma or_chain_ignores_lastIndex text rs rs' :
  Forall plain rs' -> Forall2 same_pattern rs rs' ->
  or_chain text rs = (fst (or_chain text rs'), rs).
Proof.
  intros Hp H2. induction H2 as [|R R' rest rest' HR Hrest IH]; [reflexivity|].
  inversion Hp as [|? ? HpR Hprest]; subst.
  cbn [or_chain]. rewrite (extractField_ignores_lastIndex text R R' HpR HR).
  destruct (extractField text R') as [v R''] eqn:E. cbn [fst].
  inversion Hrest as [|R2 R2' rest2 rest2' H2a H2b]; subst.
  - reflexivity.
  - destruct (truthy v); [reflexivity|].
    rewrite (IH Hprest).
    destruct (or_chain text (R2' :: rest2')) as [v' rs'']. reflexivity.
Qed.

(** C8: the record computed by [parseBankReceiptText] depends on the
    transcription only.  Were the RegExp objects kept between calls, in
    whatever [lastIndex] state, the body of the function would compute the
    same record and leave the objects as they were; hence a second
    invocation on the same string yields the same record as the first. *)
Theorem parseBankReceiptText_deterministic : forall ps text,
  same_patterns ps literals ->
  parseBankReceiptText_with ps text = (parseBankReceiptText text, ps) /\
  fst (parseBankReceiptText_with
         (snd (parseBankReceiptText_with ps text)) text) =
  fst (parseBankReceiptText_with ps text).
Proof.
  intros ps text (Hf & Ht & Ha & Hty & Hd).
  destruct literals_plain as (Pf & Pt & Pa & Pty & Pd).
  assert (E : parseBankReceiptText_with ps text = (parseBankReceiptText text, ps)).
  { rewrite parseBankReceiptText_fields. unfold parseBankReceiptText_with.
    rewrite (or_chain_ignores_lastIndex text _ _ Pf Hf),
            (or_chain_ignores_lastIndex text _ _ Pt Ht),
            (or_chain_ignores_lastIndex text _ _ Pa Ha),
            (or_chain_ignores_lastIndex text _ _ Pty Hty),
            (or_chain_ignores_lastIndex text _ _ Pd Hd).
    destruct ps; reflexivity. }
  split; [exact E|].
  rewrite E. cbn [snd fst]. now rewrite E.
Qed.

Lemma parseBankReceiptText_deterministic_witness :
  same_patterns literals_moved literals /\
  parseBankReceiptText_with literals_moved english_receipt =
    (parseBankReceiptText english_receipt, literals_moved).
Proof.
  assert (H : same_patterns literals_moved literals)
    by (repeat split; repeat constructor).
  split; [exact H|].
  exact (proj1 (parseBankReceiptText_deterministic
                  literals_moved english_receipt H)).
Defined.

(* ================================================================== *)
(** ** The pipeline: validation, failures and resources *)
(* ================================================================== *)

Lemma type_accepted_negb file :
  negb (includes (type file) (lit "pdf")) &&
  negb (includes (type file) (lit "image")) = negb (type_accepted file).
Proof. unfold type_accepted. now rewrite negb_orb. Qed.

(** A file that fails a validation makes the [try] block throw a
    [PDFLoadError] with that validation's message before anything else
    happens, and the call returns the failure made of the message. *)
Lemma rejected_file h file onProgress s message :
  rejection file = Some message ->
  attempt h file onProgress s = (Throw (PDFLoadError message), s) /\
  parseBankReceiptPDF h file onProgress s = (Return (failure message), s).
Proof.
  unfold rejection, parseBankReceiptPDF, try_catch, attempt.
  rewrite type_accepted_negb.
  destruct (negb (type_accepted file)).
  - intros [= <-]. split; reflexivity.
  - destruct (maxSize <? size file)%N.
    + intros [= <-]. split; reflexivity.
    + destruct (size file =? 0)%N; [|discriminate].
      intros [= <-]. split; reflexivity.
Qed.

(** C5: a file of size 0 or of more than 10 MiB is refused: the [try]
    block throws a [PDFLoadError] and the call returns its message as a
    failure, in the state in which it was called, so that neither
    [createWorker] nor any other outside call is made.  The message is
    "File size exceeds 10MB limit." or "File is empty." when the declared
    type is accepted; a type that names neither a PDF nor an image is
    refused first, in the same way, with the message "Invalid file
    type. Please upload a PDF or image file.". *)
Theorem parseBankReceiptPDF_validation : forall h file onProgress s,
  ((size file = 0 \/ maxSize < size file)%N ->
   exists message,
     attempt h file onProgress s = (Throw (PDFLoadError message), s) /\
     parseBankReceiptPDF h file onProgress s = (Return (failure message), s) /\
     message = (if negb (type_accepted file) then invalid_type_message
                else if (maxSize <? size file)%N then too_large_message
                else empty_message)) /\
  (type_accepted file = false ->
   attempt h file onProgress s = (Throw (PDFLoadError invalid_type_message), s) /\
   parseBankReceiptPDF h file onProgress s =
     (Return (failure invalid_type_message), s)).
Proof.
  intros h file onProgress s. split.
  - intros Hsize.
    assert (E : rejection file =
                Some (if negb (type_accepted file) then invalid_type_message
                      else if (maxSize <? size file)%N then too_large_message
                      else empty_message)).
    { unfold rejection. destruct (negb (type_accepted file)); [reflexivity|].
      destruct (N.ltb_spec maxSize (size file)); [reflexivity|].
      destruct Hsize as [->|Hlt]; [reflexivity | lia]. }
    destruct (rejected_file h file onProgress s _ E) as [H1 H2].
    eexists. repeat split; eassumption.
  - intros Ht. apply rejected_file. unfold rejection. now rewrite Ht.
Qed.

(** The [try] block returns only the success object. *)
Lemma attempt_returns_success h file onProgress s r s' :
  attempt h file onProgress s = (Return r, s') ->
  success r = true /\ data r <> None /\ rawText r <> None /\ error r = None.
Proof.
  unfold attempt.
  destruct (_ && _); [discriminate|].
  destruct (_ <? _)%N; [discriminate|].
  destruct (_ =? _)%N; [discriminate|].
  unfold bind.
  destruct (report onProgress 10 s) as [[[]|e] s1]; [|discriminate].
  destruct (extractTextWithOCR h file s1) as [[fullText|e] s2]; [|discriminate].
  destruct (report onProgress 90 s2) as [[[]|e] s3]; [|discriminate].
  destruct (length (trim fullText) =? 0); [discriminate|].
  destruct (report onProgress 100 s3) as [[[]|e] s4]; [|discriminate].
  unfold ret. intros [= <- <-]. simpl. repeat split; discriminate.
Qed.

(** The [catch] block returns a failure with a message, and does not
    throw. *)
Lemma recover_returns_failure err s :
  exists message s', recover err s = (Return (failure message), s').
Proof.
  destruct err; simpl; unfold bind, log, ret; simpl; eauto.
Qed.

(** A text returned by [extractTextWithOCR] is what [worker.recognize]
    returned. *)
Lemma extractTextWithOCR_returns h file s t s' :
  extractTextWithOCR h file s = (Return t, s') ->
  exists src, recognize h src = Return t.
Proof.
  unfold extractTextWithOCR.
  set (fin := bind (call terminate_call (terminate h)) _).
  set (pick := if is_application_pdf file then _ else _).
  unfold bind at 1.
  destruct (call createWorker_call (createWorker h) s) as [[[]|e] s1];
    [|discriminate].
  unfold bind at 1. cbn [worker_started]. unfold try_finally.
  set (s2 := mkState _ _ _). clearbody s2.
  unfold bind at 1.
  destruct (pick s2) as [[src|e] s3].
  - unfold call at 1. unfold bind at 1. cbn [log].
    destruct (recognize h src) as [t'|e] eqn:Er.
    + destruct (fin _) as [[[]|e] s4].
      * intros [= <- <-]. now exists src.
      * discriminate.
    + destruct (fin _) as [[[]|e'] s4]; discriminate.
  - destruct (fin s3) as [[[]|e'] s4]; discriminate.
Qed.

(** When [extractTextWithOCR] returns, [createWorker] and
    [worker.terminate] have returned. *)
Lemma extractTextWithOCR_returns_worker h file s t s' :
  extractTextWithOCR h file s = (Return t, s') ->
  createWorker h = Return tt /\ terminate h = Return tt.
Proof.
  unfold extractTextWithOCR.
  set (pick := if is_application_pdf file then _ else _).
  unfold bind at 1. unfold call at 1. unfold bind at 1. cbn [log].
  destruct (createWorker h) as [[]|e]; [|discriminate].
  unfold bind at 1. cbn [worker_started]. unfold try_finally.
  match goal with |- context [bind pick ?k ?s0] =>
    destruct (bind pick k s0) as [r s3] end.
  unfold bind at 1. unfold call at 1. unfold bind at 1. cbn [log].
  destruct (terminate h) as [[]|e]; [|discriminate].
  intros _. split; reflexivity.
Qed.

Lemma attempt_returns_text h file cb s r s' :
  attempt h file cb s = (Return r, s') ->
  exists t src,
    recognize h src = Return t /\ trim t <> [] /\
    r = mkResult true (Some (parseBankReceiptText t)) (Some t) None.
Proof.
  unfold attempt.
  destruct (_ && _); [discriminate|].
  destruct (_ <? _)%N; [discriminate|].
  destruct (_ =? _)%N; [discriminate|].
  unfold bind.
  destruct (report cb 10 s) as [[[]|e] s2]; [|discriminate].
  destruct (extractTextWithOCR h file s2) as [[t|e] s3] eqn:Et; [|discriminate].
  destruct (report cb 90 s3) as [[[]|e] s4]; [|discriminate].
  destruct (length (trim t) =? 0) eqn:El; [discriminate|].
  destruct (report cb 100 s4) as [[[]|e] s5]; [|discriminate].
  unfold ret. intros [= <- <-].
  destruct (extractTextWithOCR_returns _ _ _ _ _ Et) as [src Hsrc].
  exists t, src. repeat split; try assumption.
  intros Ht. rewrite Ht in El. discriminate.
Qed.

(** When the [try] block returns, no validation has refused the file and
    the worker was created and terminated. *)
Lemma attempt_returns_checked h file cb s r s' :
  attempt h file cb s = (Return r, s') ->
  rejection file = None /\ createWorker h = Return tt /\ terminate h = Return tt.
Proof.
  unfold attempt, rejection. rewrite type_accepted_negb.
  destruct (negb (type_accepted file)); [discriminate|].
  destruct (_ <? _)%N; [discriminate|].
  destruct (_ =? _)%N; [discriminate|].
  unfold bind at 1.
  destruct (report cb 10 s) as [[[]|e] s2]; [|discriminate].
  unfold bind at 1.
  destruct (extractTextWithOCR h file s2) as [[t|e] s3] eqn:Et; [|discriminate].
  intros _. split; [reflexivity|].
  exact (extractTextWithOCR_returns_worker _ _ _ _ _ Et).
Qed.

(** C6: [parseBankReceiptPDF] returns an object and never throws.
    Every throw of the [try] block, whatever was thrown and wherever, is
    returned as the failure object made of the message of the [catch]
    block: the message of a [PDFLoadError] or [PDFExtractionError], and
    "Failed to process file: " followed by the message of any other
    error.  The object has [success = false] exactly when the [try] block
    threw, and then it has an error message and neither data nor raw
    text.  It has [success = true] only when no validation refused the
    file, the worker was created and terminated, and the recognition
    returned a text that is not blank; the raw text is that text, the
    data are the fields extracted from it, and there is no error. *)
Theorem parseBankReceiptPDF_never_throws : forall h file onProgress s,
  exists r s',
    parseBankReceiptPDF h file onProgress s = (Return r, s') /\
    (forall err s1,
       attempt h file onProgress s = (Throw err, s1) ->
       r = failure
             match err with
             | PDFLoadError message | PDFExtractionError message => message
             | Error message => lit "Failed to process file: " ++ message
             | NotAnError =>
                 lit "Failed to process file: " ++ lit "Unknown error occurred"
             end) /\
    (success r = false ->
     (exists err s1, attempt h file onProgress s = (Throw err, s1)) /\
     data r = None /\ rawText r = None /\ exists message, error r = Some message) /\
    (success r = true ->
     rejection file = None /\
     createWorker h = Return tt /\ terminate h = Return tt /\
     (exists t src,
        recognize h src = Return t /\ trim t <> [] /\
        rawText r = Some t /\ data r = Some (parseBankReceiptText t)) /\
     data r <> None /\ rawText r <> None /\ error r = None).
Proof.
  intros h file onProgress s. unfold parseBankReceiptPDF, try_catch.
  destruct (attempt h file onProgress s) as [[r|err] s1] eqn:E.
  - exists r, s1. split; [reflexivity|].
    destruct (attempt_returns_text _ _ _ _ _ _ E) as (t & src & Hsrc & Ht & ->).
    destruct (attempt_returns_checked _ _ _ _ _ _ E) as (Hrej & Hw & Hterm).
    split; [discriminate|]. split; [discriminate|]. intros _.
    repeat split; try assumption; try discriminate.
    exists t, src. repeat split; assumption.
  - assert (H : exists s', recover err s1 =
       (Return (failure
          match err with
          | PDFLoadError message | PDFExtractionError message => message
          | Error message => lit "Failed to process file: " ++ message
          | NotAnError =>
              lit "Failed to process file: " ++ lit "Unknown error occurred"
          end), s')).
    { destruct err; cbn [recover]; unfold bind, log, ret; eauto. }
    destruct H as (s' & H). rewrite H. do 2 eexists. split; [reflexivity|].
    split.
    + intros err0 s0 [= <- <-]. reflexivity.
    + split; [|discriminate]. intros _. split; [eauto|].
      cbn. repeat split. eauto.
Qed.

(** C4, as amended: when the page of a PDF cannot be rendered, and every
    step around the rendering succeeds, the [try] block throws a plain
    [Error], not a [PDFLoadError], and [parseBankReceiptPDF] returns the
    failure whose message is "Failed to process file: " followed by the
    message of that error; for a canvas without a 2D context this is
    "Failed to process file: Failed to get canvas context". *)
Theorem unrendered_page_is_wrapped : forall h file onProgress s message,
  type file = lit "application/pdf" ->
  (0 < size file <= maxSize)%N ->
  (forall f, onProgress = Some f -> f 10%N = Return tt) ->
  createWorker h = Return tt ->
  arrayBuffer h = Return tt ->
  getDocument h = Return tt ->
  getPage h = Return tt ->
  terminate h = Return tt ->
  page_not_rendered h message ->
  exists s1 s2,
    attempt h file onProgress s = (Throw (Error message), s1) /\
    parseBankReceiptPDF h file onProgress s =
      (Return (failure (lit "Failed to process file: " ++ message)), s2).
Proof.
  intros h file onProgress s message Ht [Hpos Hmax] Hp Hw Ha Hd Hg Hterm Hr.
  assert (Hrep : exists s0, report onProgress 10 s = (Return tt, s0)).
  { destruct onProgress as [f|]; simpl.
    - unfold call, bind, log. rewrite (Hp f eq_refl). eauto.
    - unfold ret. eauto. }
  destruct Hrep as [s0 Hrep].
  assert (E : exists s1, attempt h file onProgress s = (Throw (Error message), s1)).
  { unfold attempt. rewrite Ht.
    replace (negb (includes (lit "application/pdf") (lit "pdf")) &&
             negb (includes (lit "application/pdf") (lit "image"))) with false
      by reflexivity.
    destruct (N.ltb_spec maxSize (size file)); [lia|].
    destruct (N.eqb_spec (size file) 0); [lia|].
    unfold bind at 1. rewrite Hrep.
    unfold bind at 1.
    unfold extractTextWithOCR, is_application_pdf, pdfToImageDataURL.
    rewrite Ht, Hw, Ha, Hd, Hg, Hterm.
    destruct Hr as [[Hc ->]|[Hc Hrend]]; rewrite Hc; [|rewrite Hrend];
      cbv [bind call log try_finally ret throw worker_started worker_stopped
           document_opened eqb lit]; simpl; eauto. }
  destruct E as [s1 E]. exists s1.
  unfold parseBankReceiptPDF, try_catch. rewrite E.
  simpl. unfold bind, log, ret. simpl. eauto.
Qed.

Lemma unrendered_page_is_wrapped_witness :
  exists s1 s2,
    attempt host_without_canvas_context a_pdf_file None initial =
      (Throw (Error (lit "Failed to get canvas context")), s1) /\
    parseBankReceiptPDF host_without_canvas_context a_pdf_file None initial =
      (Return (failure (lit "Failed to process file: " ++
                        lit "Failed to get canvas context")), s2).
Proof.
  apply (unrendered_page_is_wrapped host_without_canvas_context a_pdf_file
           None initial (lit "Failed to get canvas context"));
    try reflexivity.
  - simpl. unfold maxSize. lia.
  - discriminate.
  - left. split; reflexivity.
Defined.

(** C4, counterexample: for a PDF on a host whose canvas has no 2D context
    the error is thrown as a plain [Error] and the failure returned is the
    wrapped one, after a call of [console.error]. *)
Lemma missing_context_is_not_a_load_error :
  parseBankReceiptPDF host_without_canvas_context a_pdf_file None initial =
    (Return (failure (lit "Failed to process file: Failed to get canvas context")),
     mkState [createWorker_call; arrayBuffer_call; getDocument_call;
              getPage_call; getContext_call; terminate_call;
              console_error_call] 1 0) /\
  forall message,
    fst (attempt host_without_canvas_context a_pdf_file None initial) <>
    Throw (PDFLoadError message).
Proof. split; [vm_compute; reflexivity | intros message; vm_compute; discriminate]. Qed.

(** C7, the code on a failure path: when the canvas has no 2D context,
    [pdfToImageDataURL] throws after the document was loaded and without
    calling [destroy]; the document is still open when it returns.  The
    same holds when the render task fails. *)
Theorem pdfToImageDataURL_leaves_document_open :
  pdfToImageDataURL host_without_canvas_context a_pdf_file initial =
    (Throw (Error (lit "Failed to get canvas context")),
     mkState [arrayBuffer_call; getDocument_call; getPage_call; getContext_call]
             1 0) /\
  forall h s e,
    arrayBuffer h = Return tt -> getDocument h = Return tt ->
    getPage h = Return tt -> getContext h = Return true ->
    render h = Throw e ->
    let s' := snd (pdfToImageDataURL h a_pdf_file s) in
    open_documents s' = S (open_documents s) /\
    trace s' = trace s ++ [arrayBuffer_call; getDocument_call; getPage_call;
                           getContext_call; render_call].
Proof.
  split; [vm_compute; reflexivity|].
  intros h s e Ha Hd Hg Hc Hr. unfold pdfToImageDataURL.
  rewrite Ha, Hd, Hg, Hc, Hr.
  cbv [bind call log document_opened throw negb]. simpl.
  split; [reflexivity|]. now rewrite <- !app_assoc.
Qed.

(** Steps that leave the count of live workers as it is. *)
Lemma keeps_ret {A} (a : A) : keeps_workers (ret a).
Proof. intros s. reflexivity. Qed.

Lemma keeps_throw {A} e : keeps_workers (@throw A e).
Proof. intros s. reflexivity. Qed.

Lemma keeps_log e : keeps_workers (log e).
Proof. intros s. reflexivity. Qed.

Lemma keeps_bind {A B} (m : M A) (k : A -> M B) :
  keeps_workers m -> (forall a, keeps_workers (k a)) -> keeps_workers (bind m k).
Proof.
  intros Hm Hk s. unfold bind. specialize (Hm s).
  destruct (m s) as [[a|e] s1]; cbn [snd] in *.
  - now rewrite Hk.
  - exact Hm.
Qed.

Lemma keeps_call {A} e (answer : outcome A) : keeps_workers (call e answer).
Proof.
  unfold call. apply keeps_bind; [apply keeps_log|]. intros _ s. reflexivity.
Qed.

Lemma keeps_document_opened : keeps_workers document_opened.
Proof. intros s. reflexivity. Qed.

Lemma keeps_document_closed : keeps_workers document_closed.
Proof. intros s. reflexivity. Qed.

Create HintDb workers.

#[local] Hint Resolve keeps_ret keeps_throw keeps_log keeps_call
  keeps_document_opened keeps_document_closed : workers.

Lemma pdfToImageDataURL_keeps_workers h file :
  keeps_workers (pdfToImageDataURL h file).
Proof.
  unfold pdfToImageDataURL.
  repeat (apply keeps_bind; [auto with workers | intros]).
  destruct (negb _); [auto with workers|].
  repeat (apply keeps_bind; [auto with workers | intros]).
  auto with workers.
Qed.

(** The worker is terminated on every path: once [createWorker] has
    succeeded, [extractTextWithOCR] calls [worker.terminate] last, whether
    the conversion and the recognition succeed or throw; and when the
    termination succeeds no worker of the call is left alive. *)
Lemma extractTextWithOCR_terminates_worker h file s :
  createWorker h = Return tt ->
  exists before,
    trace (snd (extractTextWithOCR h file s)) = before ++ [terminate_call] /\
    (terminate h = Return tt ->
     live_workers (snd (extractTextWithOCR h file s)) = live_workers s).
Proof.
  intros Hw. unfold extractTextWithOCR. rewrite Hw.
  match goal with |- context [try_finally ?b _] => set (body := b) end.
  assert (Hb : keeps_workers body).
  { subst body. apply keeps_bind; [|intros; apply keeps_call].
    destruct (is_application_pdf file); [|apply keeps_ret].
    apply keeps_bind; [apply pdfToImageDataURL_keeps_workers|].
    intros; apply keeps_ret. }
  clearbody body.
  cbv [bind call log worker_started worker_stopped try_finally].
  cbn [trace open_documents live_workers].
  match goal with
  | |- context [body ?s0] =>
      specialize (Hb s0); destruct (body s0) as [r s2]
  end.
  cbn [snd live_workers] in Hb.
  destruct (terminate h) as [[]|e]; cbn [snd trace live_workers].
  - eexists. split; [reflexivity|]. intros _. rewrite Hb. reflexivity.
  - eexists. split; [reflexivity|]. discriminate.
Qed.

Lemma extractTextWithOCR_terminates_worker_witness :
  exists before,
    trace (snd (extractTextWithOCR host_without_canvas_context a_pdf_file initial)) =
      before ++ [terminate_call] /\
    (terminate host_without_canvas_context = Return tt ->
     live_workers (snd (extractTextWithOCR host_without_canvas_context
                          a_pdf_file initial)) = live_workers initial).
Proof.
  exact (extractTextWithOCR_terminates_worker host_without_canvas_context
           a_pdf_file initial eq_refl).
Defined.

(** On the success path [pdfToImageDataURL] destroys the document it
    loaded before it returns the data URL. *)
Lemma pdfToImageDataURL_releases_on_success h file s url :
  arrayBuffer h = Return tt -> getDocument h = Return tt ->
  getPage h = Return tt -> getContext h = Return true ->
  render h = Return tt -> destroy h = Return tt -> toDataURL h = Return url ->
  exists s',
    pdfToImageDataURL h file s = (Return url, s') /\
    open_documents s' = open_documents s /\
    trace s' = trace s ++ [arrayBuffer_call; getDocument_call; getPage_call;
                           getContext_call; render_call; destroy_call;
                           toDataURL_call].
Proof.
  intros Ha Hd Hg Hc Hr Hx Hu. unfold pdfToImageDataURL.
  rewrite Ha, Hd, Hg, Hc, Hr, Hx, Hu.
  cbv [bind call log document_opened document_closed negb].
  cbn [trace live_workers open_documents Nat.pred].
  eexists. split; [reflexivity|]. cbn [trace open_documents].
  split; [reflexivity|]. now rewrite <- !app_assoc.
Qed.

Lemma pdfToImageDataURL_releases_on_success_witness :
  exists s',
    pdfToImageDataURL obliging_host a_pdf_file initial =
      (Return (lit "data:image/png;base64,"), s') /\
    open_documents s' = open_documents initial /\
    trace s' = trace initial ++
               [arrayBuffer_call; getDocument_call; getPage_call;
                getContext_call; render_call; destroy_call; toDataURL_call].
Proof.
  apply (pdfToImageDataURL_releases_on_success obliging_host a_pdf_file initial);
    reflexivity.
Defined.

(* ================================================================== *)
(** ** parseDate *)
(* ================================================================== *)

Lemma digit_char c :
  is_digit c = true ->
  char_matches false digit c = true /\ char_matches false dash_or_slash c = false.
Proof.
  unfold is_digit. rewrite andb_true_iff, !N.leb_le. intros [H1 H2].
  assert (H : (c = 48 \/ c = 49 \/ c = 50 \/ c = 51 \/ c = 52 \/ c = 53 \/
               c = 54 \/ c = 55 \/ c = 56 \/ c = 57)%N) by lia.
  repeat (destruct H as [->|H]; [split; reflexivity|]).
  subst. split; reflexivity.
Qed.

Lemma sep_char c :
  is_sep c ->
  char_matches false digit c = false /\ char_matches false dash_or_slash c = true.
Proof. intros [->| ->]; split; reflexivity. Qed.

Lemma digit_value_range c : is_digit c = true -> (0 <= Z.of_N c - 48 <= 9)%Z.
Proof. unfold is_digit. rewrite andb_true_iff, !N.leb_le. lia. Qed.

Lemma month_start_range mn leap : (0 <= month_start mn leap <= 335)%Z.
Proof.
  unfold month_start.
  assert (H : (0 <= nth (Z.to_nat mn)
                 [0; 31; 59; 90; 120; 151; 181; 212; 243; 273; 304; 334] 0 <= 334)%Z).
  { generalize (Z.to_nat mn) as n. intros n.
    do 12 (destruct n as [|n]; [simpl; lia|]). destruct n; simpl; lia. }
  destruct (leap && _); lia.
Qed.

(** [new Date(y, m, d)] is a valid date for every year of at most four
    digits and every month and day of at most two: values out of range
    carry over, they do not invalidate the date. *)
Lemma new_Date_valid y m d :
  (0 <= y <= 9999)%Z -> (-1 <= m <= 98)%Z -> (0 <= d <= 99)%Z ->
  isValid (new_Date (Int y) (Int m) (Int d)) = true.
Proof.
  intros Hy Hm Hd. unfold new_Date, TimeClip.
  set (yr := if ((0 <=? y)%Z && (y <=? 99)%Z)%bool then (1900 + y)%Z else y).
  assert (Hyr : (0 <= yr <= 9999)%Z).
  { subst yr. destruct (_ && _) eqn:E; [|lia].
    apply andb_true_iff in E. destruct E as [_ E]. apply Z.leb_le in E. lia. }
  unfold MakeDay, DayFromYear, msPerDay.
  pose proof (month_start_range (m mod 12) (InLeapYear (yr + m / 12))) as Hms.
  set (ms := month_start _ _) in *. clearbody ms.
  match goal with
  | |- context [(?b <? ?t)%Z] => destruct (Z.ltb_spec b t) as [Hlt|Hge]
  end; [|reflexivity].
  exfalso. clearbody yr. clear Hy. Z.div_mod_to_equations. lia.
Qed.

Lemma window_year_two_digits v :
  (0 <= v < 100)%Z ->
  window_year (Int v) = Int (if (v <? 50)%Z then 2000 + v else 1900 + v).
Proof.
  intros H. unfold window_year, num_lt, num_add.
  destruct (Z.ltb_spec v 100); [|lia].
  destruct (v <? 50)%Z; f_equal; lia.
Qed.

(** The month-first reading and the two-digit-year rule: on D1 sep D2 sep
    YY, with D1 and D2 of one or two digits, [parseDate] returns the date
    [new Date(year, D1 - 1, D2)] where year is 2000 + YY for YY < 50 and
    1900 + YY otherwise.  It does so whatever the values of D1 and D2. *)
Lemma parseDate_month_first parseISO d1 d2 y s1 s2 :
  forallb is_digit d1 = true -> 1 <= length d1 <= 2 ->
  forallb is_digit d2 = true -> 1 <= length d2 <= 2 ->
  forallb is_digit y = true -> length y = 2 ->
  is_sep s1 -> is_sep s2 ->
  parseDate parseISO (d1 ++ s1 :: d2 ++ s2 :: y) =
  Some (new_Date (Int (if (decimal y <? 50)%Z then 2000 + decimal y
                       else 1900 + decimal y))
                 (Int (decimal d1 - 1)) (Int (decimal d2))).
Proof.
  intros D1 L1 D2 L2 DY LY S1 S2.
  destruct (sep_char _ S1) as [S1d S1s]. destruct (sep_char _ S2) as [S2d S2s].
  destruct d1 as [|a [|b [|]]]; simpl in L1; try lia;
  destruct d2 as [|c [|d [|]]]; simpl in L2; try lia;
  destruct y as [|e [|f [|]]]; simpl in LY; try lia;
  simpl in D1, D2, DY;
  repeat match goal with
         | H : _ && _ = true |- _ => apply andb_true_iff in H; destruct H
         end;
  repeat match goal with
         | H : is_digit ?c = true |- _ =>
             lazymatch goal with
             | _ : char_matches false digit c = true |- _ => fail
             | _ => destruct (digit_char c H); pose proof (digit_value_range c H)
             end
         end.
  all: unfold parseDate, formats, format_month_first, decimal.
  all: cbn [parseDate_loop]; unfold String_match, RegExpBuiltinExec.
  all: eval_chars.
  all: rewrite window_year_two_digits by lia.
  all: rewrite new_Date_valid by (try destruct (_ <? 50)%Z; lia).
  all: reflexivity.
Qed.

Lemma parseDate_month_first_witness :
  parseDate (fun _ => InvalidDate) (lit "3" ++ ch "/" :: lit "14" ++ ch "-" :: lit "25") =
  Some (new_Date (Int 2025) (Int 2) (Int 14)).
Proof.
  apply (parseDate_month_first (fun _ => InvalidDate) (lit "3") (lit "14")
           (lit "25") (ch "/") (ch "-"));
    try reflexivity; try (simpl; lia); [right | left]; reflexivity.
Defined.

(** C9, the code at a date that is not on the calendar: "02/30/25" is
    read month first with the year 2025, and the result is not null but
    the date two days after 28 February 2025, that is 2 March 2025;
    "13/45/25" gives 14 February 2026. *)
Theorem parseDate_rolls_over : forall parseISO,
  parseDate parseISO (lit "02/30/25") = Some (new_Date (Int 2025) (Int 1) (Int 30)) /\
  new_Date (Int 2025) (Int 1) (Int 30) = new_Date (Int 2025) (Int 2) (Int 2) /\
  new_Date (Int 2025) (Int 2) (Int 2) = DateValue 1740873600000 /\
  parseDate parseISO (lit "13/45/25") = Some (new_Date (Int 2026) (Int 1) (Int 14)).
Proof. intros parseISO. repeat split; vm_compute; reflexivity. Qed.

(* ================================================================== *)
(** ** receiptDataToExpense *)
(* ================================================================== *)

(** C10: [receiptDataToExpense] always sets the category "Other"; the
    amount is 0 when the receipt has no amount or [parseAmount] returns
    null on it; the description is "Unknown transaction" when the receipt
    has no recipient; the date is the current date when the receipt has no
    date or [parseDate] returns null on it; [from], [to] and
    [transactionType] are those of the receipt. *)
Theorem receiptDataToExpense_defaults :
  forall (number : Type) (zero : number) (number_truthy : number -> bool)
         (parseFloat : jsstring -> number) (isNaN : number -> bool)
         (parseISO : jsstring -> Date) (now : Date) (data : BankReceiptData),
  let e := Expenses.receiptDataToExpense number zero number_truthy parseFloat isNaN
             parseISO now data in
  Expenses.category number e = lit "Other" /\
  (Receipt.amount data = None \/
   (exists s, Receipt.amount data = Some s /\
              parseAmount number parseFloat isNaN s = None) ->
   Expenses.amount number e = zero) /\
  (Receipt.to data = None -> Expenses.description number e = lit "Unknown transaction") /\
  (Receipt.date data = None \/
   (exists s, Receipt.date data = Some s /\ parseDate parseISO s = None) ->
   Expenses.date number e = now) /\
  Expenses.from number e = Receipt.from data /\
  Expenses.to number e = Receipt.to data /\
  Expenses.transactionType number e = Receipt.transactionType data.
Proof.
  intros number zero number_truthy parseFloat isNaN parseISO now data e.
  subst e. unfold Expenses.receiptDataToExpense.
  cbn [Expenses.category Expenses.amount Expenses.description Expenses.date Expenses.from Expenses.to Expenses.transactionType].
  repeat split.
  - intros [H|(s & H & Hs)]; rewrite H; [reflexivity|].
    destruct s as [|c s]; [reflexivity|]. now rewrite Hs.
  - intros H. now rewrite H.
  - intros [H|(s & H & Hs)]; rewrite H; [reflexivity|].
    destruct s as [|c s]; [reflexivity|]. now rewrite Hs.
Qed.

(** ** Strings: equality *)

Lemma jsstring_eqb_eq s : forall t, eqb s t = true <-> s = t.
Proof.
  induction s as [|x s IH]; intros [|y t]; cbn; split; try discriminate;
    try reflexivity.
  - rewrite andb_true_iff, N.eqb_eq, IH. now intros [-> ->].
  - intros [= -> ->]. rewrite N.eqb_refl. cbn. now apply IH.
Qed.

Lemma jsstring_eqb_refl s : eqb s s = true.
Proof. now apply jsstring_eqb_eq. Qed.

Lemma jsstring_eqb_neq s t : s <> t -> eqb s t = false.
Proof.
  intros H. destruct (eqb s t) eqn:E; [|reflexivity].
  apply jsstring_eqb_eq in E. contradiction.
Qed.

(* ================================================================== *)
(** ** parseDate: when it returns null, and what it returns *)
(* ================================================================== *)

Lemma capped_le_max h n : capped (Some h) n <= h.
Proof. simpl. lia. Qed.

Lemma match_terms_within_max ic ts : forall pos s counts,
  match_terms ic ts pos s = Some counts -> within_max ts counts.
Proof.
  induction ts as [|t ts IH]; intros pos s counts H; simpl in H.
  - injection H as <-. exact I.
  - destruct t as [cs lo hi| |].
    + apply try_down_some in H. destruct H as (j & Hj & H).
      destruct (match_terms ic ts (pos + j) (skipn j s)) as [counts'|] eqn:E;
        [|discriminate].
      injection H as <-. simpl. split; [|eapply IH; eassumption].
      destruct hi as [h|]; [|exact I]. simpl in Hj. lia.
    + destruct (pos =? 0); [|discriminate].
      destruct (match_terms ic ts pos s) as [counts'|] eqn:E; [|discriminate].
      injection H as <-. simpl. eapply IH; eassumption.
    + destruct s; [|discriminate].
      destruct (match_terms ic ts pos []) as [counts'|] eqn:E; [|discriminate].
      injection H as <-. simpl. eapply IH; eassumption.
Qed.

Lemma search_found ic sticky ts : forall s pos index counts,
  search ic sticky ts pos s = Some (index, counts) ->
  exists n, index = pos + n /\ n <= length s /\
            match_terms ic ts index (skipn n s) = Some counts.
Proof.
  induction s as [|c r IH]; intros pos index counts H; simpl in H.
  - destruct (match_terms ic ts pos []) eqn:E.
    + injection H as <- <-. exists 0. rewrite Nat.add_0_r. simpl. auto.
    + destruct sticky; discriminate.
  - destruct (match_terms ic ts pos (c :: r)) eqn:E.
    + injection H as <- <-. exists 0. rewrite Nat.add_0_r. simpl. split; [reflexivity|]. split; [lia|exact E].
    + destruct sticky; [discriminate|].
      apply IH in H. destruct H as (n & -> & Hn & Hm).
      exists (S n). simpl. repeat split; try lia.
      replace (pos + S n) with (S pos + n) by lia. exact Hm.
Qed.

Lemma digit_is_digit c : char_matches false digit c = true -> is_digit c = true.
Proof.
  intros H. apply in_set_exact in H. cbn in H.
  repeat (destruct H as [<-|H]; [reflexivity|]). contradiction.
Qed.

Lemma digits_value_bounds g : forall acc,
  Forall (fun c => is_digit c = true) g -> (0 <= acc)%Z ->
  (0 <= digits_value acc g < (acc + 1) * 10 ^ Z.of_nat (length g))%Z.
Proof.
  induction g as [|c g IH]; intros acc HF Hacc; cbn [digits_value].
  - cbn [length Z.of_nat]. lia.
  - inversion HF as [|? ? Hc HF']; subst. rewrite Hc.
    pose proof (digit_value_range c Hc) as Hr.
    specialize (IH (10 * acc + (Z.of_N c - 48))%Z HF' ltac:(lia)).
    replace (Z.of_nat (length (c :: g))) with (Z.succ (Z.of_nat (length g)))
      by (simpl length; lia).
    rewrite Z.pow_succ_r by lia.
    set (P := (10 ^ Z.of_nat (length g))%Z) in *.
    assert (0 < P)%Z by (apply Z.pow_pos_nonneg; lia).
    assert ((10 * acc + (Z.of_N c - 48) + 1) * P <= (10 * acc + 10) * P)%Z
      by (apply Z.mul_le_mono_nonneg_r; lia).
    clearbody P. lia.
Qed.

Lemma parseInt10_number g :
  is_number g -> parseInt10 g = Int (digits_value 0 g).
Proof.
  intros [Hne HF]. destruct g as [|c g]; [contradiction|].
  inversion HF; subst. unfold parseInt10. now rewrite H1.
Qed.

Lemma number_of_run s a a' k :
  a = a' -> 1 <= k -> k <= length (skipn a s) ->
  Forall (fun c => char_matches false digit c = true) (firstn k (skipn a s)) ->
  is_number (substring s a' k) /\ length (substring s a' k) = k.
Proof.
  intros <- Hk Hlen HF. unfold substring.
  assert (Hl : length (firstn k (skipn a s)) = k) by (rewrite length_firstn; lia).
  split; [|exact Hl]. split.
  - intros E. rewrite E in Hl. simpl in Hl. lia.
  - eapply Forall_impl; [|exact HF]. intros c. apply digit_is_digit.
Qed.

Lemma date_format_groups a1 b1 a2 b2 a3 b3 s m :
  1 <= a1 -> 1 <= a2 -> 1 <= a3 ->
  fst (String_match s (date_format a1 b1 a2 b2 a3 b3)) = Some m ->
  exists whole g1 g2 g3, m = [whole; g1; g2; g3] /\
    is_number g1 /\ length g1 <= b1 /\ is_number g2 /\ length g2 <= b2 /\
    is_number g3 /\ length g3 <= b3.
Proof.
  intros A1 A2 A3.
  unfold String_match, RegExpBuiltinExec.
  cbn [global sticky date_format regex orb ignoreCase source].
  cbn [Nat.ltb Nat.leb skipn].
  destruct (search _ _ _ _ _) as [[index counts]|] eqn:E; [|discriminate].
  cbn [fst]. intros [= <-].
  apply search_found in E. destruct E as (n & -> & Hn & Hm).
  pose proof (match_terms_sound _ _ _ _ _ Hm) as Hs.
  pose proof (match_terms_within_max _ _ _ _ _ Hm) as Hb.
  cbn -[char_matches] in Hs, Hb.
  destruct counts as [|z counts]; [contradiction|].
  destruct z; [|contradiction].
  destruct counts as [|k1 counts]; [contradiction|].
  destruct Hs as (L1 & N1 & F1 & Hs). destruct Hb as (B1 & Hb).
  destruct counts as [|s1 counts]; [contradiction|].
  destruct Hs as (_ & Ns1 & _ & Hs). destruct Hb as (Bs1 & Hb).
  destruct counts as [|k2 counts]; [contradiction|].
  destruct Hs as (L2 & N2 & F2 & Hs). destruct Hb as (B2 & Hb).
  destruct counts as [|s2 counts]; [contradiction|].
  destruct Hs as (_ & Ns2 & _ & Hs). destruct Hb as (Bs2 & Hb).
  destruct counts as [|k3 counts]; [contradiction|].
  destruct Hs as (L3 & N3 & F3 & Hs). destruct Hb as (B3 & Hb).
  destruct counts as [|z counts]; [contradiction|].
  destruct z; [|contradiction]. destruct Hs as (_ & Hs).
  destruct counts; [|contradiction].
  rewrite !skipn_skipn in *.
  cbn [captures terms_of flat_map app length firstn skipn sum fold_right hd tl].
  destruct (number_of_run s n (0 + n + 0) k1) as [G1 E1];
    try assumption; try lia.
  destruct (number_of_run s (s1 + k1 + n) (0 + n + 0 + (k1 + 0) + s1) k2)
    as [G2 E2]; try assumption; try lia.
  destruct (number_of_run s (s2 + k2 + s1 + k1 + n)
              (0 + n + 0 + (k1 + 0) + s1 + (k2 + 0) + s2) k3)
    as [G3 E3]; try assumption; try lia.
  rewrite !Nat.add_0_r in *.
  do 4 eexists. split; [reflexivity|].
  repeat split; try apply G1; try apply G2; try apply G3; lia.
Qed.

Lemma number_value g b :
  is_number g -> length g <= b ->
  exists v, parseInt10 g = Int v /\ (0 <= v < 10 ^ Z.of_nat b)%Z.
Proof.
  intros Hg Hb. exists (digits_value 0 g). split; [now apply parseInt10_number|].
  destruct Hg as [_ HF].
  pose proof (digits_value_bounds g 0 HF ltac:(lia)) as H.
  assert (10 ^ Z.of_nat (length g) <= 10 ^ Z.of_nat b)%Z
    by (apply Z.pow_le_mono_r; lia).
  lia.
Qed.

Lemma parseDate_loop_month_first s m :
  fst (String_match s format_month_first) = Some m ->
  exists d, parseDate_loop 0 formats s = Some d /\ isValid d = true.
Proof.
  intros H. change format_month_first with (date_format 1 2 1 2 2 4) in H.
  pose proof H as H'.
  apply date_format_groups in H'; try lia.
  destruct H' as (whole & g1 & g2 & g3 & -> & G1 & L1 & G2 & L2 & G3 & L3).
  destruct (number_value g1 2 G1 L1) as (v1 & P1 & R1).
  destruct (number_value g2 2 G2 L2) as (v2 & P2 & R2).
  destruct (number_value g3 4 G3 L3) as (v3 & P3 & R3).
  unfold formats. cbn [parseDate_loop].
  change (date_format 1 2 1 2 2 4) with format_month_first in H. rewrite H.
  cbn [nth Nat.eqb]. rewrite P1, P2, P3.
  assert (Hw : exists y, window_year (Int v3) = Int y /\ (0 <= y <= 9999)%Z).
  { unfold window_year, num_lt, num_add.
    destruct (Z.ltb_spec v3 100); [|exists v3; split; [reflexivity|simpl in R3; lia]].
    destruct (Z.ltb_spec v3 50); eexists; (split; [reflexivity|lia]). }
  destruct Hw as (y & -> & Hy). cbn [num_sub].
  rewrite new_Date_valid by (simpl in *; lia).
  eexists. split; [reflexivity|]. apply new_Date_valid; simpl in *; lia.
Qed.

Lemma parseDate_loop_year_first s m :
  fst (String_match s format_month_first) = None ->
  fst (String_match s format_year_first) = Some m ->
  exists d, parseDate_loop 0 formats s = Some d /\ isValid d = true.
Proof.
  intros H0 H. change format_year_first with (date_format 4 4 1 2 1 2) in H.
  pose proof H as H'.
  apply date_format_groups in H'; try lia.
  destruct H' as (whole & g1 & g2 & g3 & -> & G1 & L1 & G2 & L2 & G3 & L3).
  destruct (number_value g1 4 G1 L1) as (v1 & P1 & R1).
  destruct (number_value g2 2 G2 L2) as (v2 & P2 & R2).
  destruct (number_value g3 2 G3 L3) as (v3 & P3 & R3).
  unfold formats. cbn [parseDate_loop]. rewrite H0.
  change (date_format 4 4 1 2 1 2) with format_year_first in H. rewrite H.
  cbn [nth Nat.eqb]. rewrite P1, P2, P3. cbn [num_sub].
  rewrite new_Date_valid by (simpl in *; lia).
  eexists. split; [reflexivity|]. apply new_Date_valid; simpl in *; lia.
Qed.

(** [parseDate] returns null exactly when the string has neither of the
    two shapes and [parseISO] gives no valid date; a string of one of the
    two shapes always gives a valid date. *)
Theorem parseDate_null_iff parseISO s :
  parseDate parseISO s = None <->
  fst (String_match s format_month_first) = None /\
  fst (String_match s format_year_first) = None /\
  isValid (parseISO s) = false.
Proof.
  unfold parseDate. split.
  - intros H.
    destruct (fst (String_match s format_month_first)) as [m|] eqn:E1.
    { destruct (parseDate_loop_month_first s m E1) as (d & Hd & _).
      rewrite Hd in H. discriminate. }
    destruct (fst (String_match s format_year_first)) as [m|] eqn:E2.
    { destruct (parseDate_loop_year_first s m E1 E2) as (d & Hd & _).
      rewrite Hd in H. discriminate. }
    repeat split.
    destruct (parseDate_loop 0 formats s); [discriminate|].
    destruct (isValid (parseISO s)); [discriminate | reflexivity].
  - intros (E1 & E2 & E3). unfold formats. cbn [parseDate_loop].
    rewrite E1, E2, E3. reflexivity.
Qed.

(** [parseDate] never returns an Invalid Date: a date built from the
    digits of one of the two formats is valid whatever the digits are, and
    the result of [parseISO] is returned only when it is valid. *)
Theorem parseDate_valid parseISO s d :
  parseDate parseISO s = Some d -> isValid d = true.
Proof.
  unfold parseDate.
  destruct (parseDate_loop 0 formats s) as [d0|] eqn:E.
  - intros [= <-]. revert E. unfold formats. cbn [parseDate_loop].
    destruct (fst (String_match s format_month_first)) as [m|] eqn:E1.
    { destruct (parseDate_loop_month_first s m E1) as (d1 & Hd & Hv).
      unfold formats in Hd. cbn [parseDate_loop] in Hd. rewrite E1 in Hd.
      intros E. rewrite E in Hd. now injection Hd as <-. }
    destruct (fst (String_match s format_year_first)) as [m|] eqn:E2;
      [|discriminate].
    destruct (parseDate_loop_year_first s m E1 E2) as (d1 & Hd & Hv).
    unfold formats in Hd. cbn [parseDate_loop] in Hd. rewrite E1, E2 in Hd.
    intros E. rewrite E in Hd. now injection Hd as <-.
  - destruct (isValid (parseISO s)) eqn:Ev; [|discriminate].
    now intros [= <-].
Qed.

Lemma parseDate_valid_witness :
  isValid (new_Date (Int 2025) (Int 1) (Int 30)) = true.
Proof.
  apply (parseDate_valid (fun _ => InvalidDate) (lit "02/30/25")
           (new_Date (Int 2025) (Int 1) (Int 30))).
  vm_compute. reflexivity.
Defined.

Lemma new_Date_short_year y m d :
  (0 <= y <= 99)%Z ->
  new_Date (Int y) (Int m) (Int d) = new_Date (Int (1900 + y)) (Int m) (Int d).
Proof.
  intros H. unfold new_Date.
  destruct (Z.leb_spec 0 y), (Z.leb_spec y 99); try lia. cbn [andb].
  destruct (Z.leb_spec 0 (1900 + y)), (Z.leb_spec (1900 + y) 99); try lia;
    reflexivity.
Qed.

(** The year-first reading: on YYYY sep M sep D, with M and D of one or
    two digits, [parseDate] returns [new Date(YYYY, M - 1, D)] whatever
    the values of M and D; as [new Date] takes a year from 0 to 99 to
    mean 1900 plus that year, a year written 0025 gives 1925. *)
Lemma parseDate_year_first parseISO y m d s1 s2 :
  forallb is_digit y = true -> length y = 4 ->
  forallb is_digit m = true -> 1 <= length m <= 2 ->
  forallb is_digit d = true -> 1 <= length d <= 2 ->
  is_sep s1 -> is_sep s2 ->
  parseDate parseISO (y ++ s1 :: m ++ s2 :: d) =
    Some (new_Date (Int (decimal y)) (Int (decimal m - 1)) (Int (decimal d))) /\
  ((decimal y < 100)%Z ->
   parseDate parseISO (y ++ s1 :: m ++ s2 :: d) =
     Some (new_Date (Int (1900 + decimal y)) (Int (decimal m - 1))
                    (Int (decimal d)))).
Proof.
  intros DY LY DM LM DD LD S1 S2.
  assert (E : parseDate parseISO (y ++ s1 :: m ++ s2 :: d) =
    Some (new_Date (Int (decimal y)) (Int (decimal m - 1)) (Int (decimal d))) /\ (0 <= decimal y)%Z).
  { destruct (sep_char _ S1) as [S1d S1s]. destruct (sep_char _ S2) as [S2d S2s].
    destruct y as [|y1 [|y2 [|y3 [|y4 [|]]]]]; simpl in LY; try lia;
    destruct m as [|a [|b [|]]]; simpl in LM; try lia;
    destruct d as [|e [|f [|]]]; simpl in LD; try lia;
    simpl in DY, DM, DD;
    repeat match goal with
           | H : _ && _ = true |- _ => apply andb_true_iff in H; destruct H
           end;
    repeat match goal with
           | H : is_digit ?c = true |- _ =>
               lazymatch goal with
               | _ : char_matches false digit c = true |- _ => fail
               | _ => destruct (digit_char c H); pose proof (digit_value_range c H)
               end
           end.
    all: unfold parseDate, formats, format_month_first, format_year_first, decimal.
    all: cbn [parseDate_loop]; unfold String_match, RegExpBuiltinExec.
    all: eval_chars.
    all: rewrite new_Date_valid by lia.
    all: split; [reflexivity | lia]. }
  destruct E as [E Hpos]. split; [exact E|].
  intros Hy. rewrite E. f_equal. apply new_Date_short_year. lia.
Qed.

Lemma parseDate_year_first_witness :
  parseDate (fun _ => InvalidDate) (lit "0025" ++ ch "-" :: lit "3" ++ ch "/" :: lit "14") =
    Some (new_Date (Int 25) (Int 2) (Int 14)) /\
  ((25 < 100)%Z ->
   parseDate (fun _ => InvalidDate) (lit "0025" ++ ch "-" :: lit "3" ++ ch "/" :: lit "14") =
     Some (new_Date (Int 1925) (Int 2) (Int 14))).
Proof.
  apply (parseDate_year_first (fun _ => InvalidDate) (lit "0025") (lit "3")
           (lit "14") (ch "-") (ch "/"));
    try reflexivity; try (simpl; lia); [left | right]; reflexivity.
Defined.

(* ================================================================== *)
(** ** parseAmount: what is handed to parseFloat *)
(* ================================================================== *)

Lemma parseAmount_cleanAmount (number : Type) parseFloat (isNaN : number -> bool) s :
  parseAmount number parseFloat isNaN s =
  match s with
  | [] => None
  | _ :: _ =>
      if isNaN (parseFloat (cleanAmount s)) then None
      else Some (parseFloat (cleanAmount s))
  end.
Proof. destruct s; reflexivity. Qed.

Lemma is_digit_cases c :
  is_digit c = true ->
  (c = 48 \/ c = 49 \/ c = 50 \/ c = 51 \/ c = 52 \/ c = 53 \/
   c = 54 \/ c = 55 \/ c = 56 \/ c = 57)%N.
Proof. unfold is_digit. rewrite andb_true_iff, !N.leb_le. lia. Qed.

Ltac by_digit c H :=
  let D := fresh in
  pose proof (is_digit_cases c H) as D;
  repeat (destruct D as [->|D]; [reflexivity|]); subst; reflexivity.

Lemma digit_not_noise c : is_digit c = true -> is_noise c = false.
Proof. intros H. by_digit c H. Qed.

Lemma digit_not_white c : is_digit c = true -> is_space c = false.
Proof. intros H. by_digit c H. Qed.

Lemma digit_not_comma c : is_digit c = true -> (c =? ch ",")%N = false.
Proof. intros H. by_digit c H. Qed.

Lemma digit_comma_class c :
  is_digit c = true -> char_matches false (Chr (ch ",")) c = false.
Proof. intros H. by_digit c H. Qed.

Lemma space_is_noise c : is_space c = true -> is_noise c = true.
Proof.
  unfold is_space. rewrite existsb_exists. intros (a & Hin & Ha).
  apply N.eqb_eq in Ha. subst a. simpl in Hin.
  repeat (destruct Hin as [<-|Hin]; [reflexivity|]). contradiction.
Qed.

Lemma filter_digit_remove_all ic cs s :
  (forall c, is_digit c = true -> char_matches ic cs c = false) ->
  filter is_digit (remove_all ic cs s) = filter is_digit s.
Proof.
  intros H. unfold remove_all. induction s as [|c s IH]; [reflexivity|].
  cbn [filter]. destruct (is_digit c) eqn:E.
  - rewrite (H c E). cbn [negb filter]. rewrite E. now f_equal.
  - destruct (negb _); cbn [filter]; [rewrite E|]; exact IH.
Qed.

Lemma filter_digit_trimStart s : filter is_digit (trimStart s) = filter is_digit s.
Proof.
  induction s as [|c s IH]; [reflexivity|]. cbn [trimStart].
  destruct (is_space c) eqn:E; [|reflexivity].
  cbn [filter]. destruct (is_digit c) eqn:D; [|exact IH].
  rewrite (digit_not_white c D) in E. discriminate.
Qed.

Lemma filter_digit_trim s : filter is_digit (trim s) = filter is_digit s.
Proof.
  unfold trim, trimEnd.
  rewrite <- (rev_involutive (filter is_digit (rev _))).
  rewrite <- filter_rev, rev_involutive. rewrite filter_digit_trimStart.
  rewrite filter_rev, rev_involutive. apply filter_digit_trimStart.
Qed.

Lemma filter_digit_replace_first_comma s :
  filter is_digit (replace_first_comma s) = filter is_digit s.
Proof.
  induction s as [|c s IH]; [reflexivity|]. cbn [replace_first_comma].
  destruct (N.eqb_spec c (ch ",")) as [->|Hc].
  - reflexivity.
  - cbn [filter]. now rewrite IH.
Qed.

(** [parseAmount] keeps the digits of its argument, all of them and in
    their order: what it removes or replaces is never a digit. *)
Lemma cleanAmount_keeps_digits s :
  filter is_digit (cleanAmount s) = filter is_digit s.
Proof.
  unfold cleanAmount. cbv zeta.
  destruct (fst (test _ _)).
  - rewrite filter_digit_replace_first_comma.
    rewrite filter_digit_remove_all by (intros c H; by_digit c H).
    rewrite filter_digit_trim.
    apply filter_digit_remove_all. intros c H. by_digit c H.
  - rewrite filter_digit_remove_all by (intros c H; by_digit c H).
    rewrite filter_digit_trim.
    apply filter_digit_remove_all. intros c H. by_digit c H.
Qed.

Lemma remove_all_none ic cs s :
  Forall (fun c => char_matches ic cs c = false) s -> remove_all ic cs s = s.
Proof.
  intros H. unfold remove_all. induction H as [|c s Hc Hs IH]; [reflexivity|].
  cbn [filter]. rewrite Hc. cbn [negb]. now f_equal.
Qed.

Lemma remove_all_every ic cs s :
  Forall (fun c => char_matches ic cs c = true) s -> remove_all ic cs s = [].
Proof.
  intros H. unfold remove_all. induction H as [|c s Hc Hs IH]; [reflexivity|].
  cbn [filter]. rewrite Hc. exact IH.
Qed.

Lemma remove_all_app ic cs s t :
  remove_all ic cs (s ++ t) = remove_all ic cs s ++ remove_all ic cs t.
Proof. unfold remove_all. apply filter_app. Qed.

Lemma char_matches_space c : char_matches false space c = is_space c.
Proof.
  unfold is_space, space, char_matches, class_members.
  cbn [flat_map class_atom_members]. rewrite app_nil_r. unfold in_set.
  generalize white_space as l. induction l as [|a l IH]; [reflexivity|].
  cbn [existsb]. rewrite IH. f_equal. apply N.eqb_sym.
Qed.

Lemma trim_no_space s : Forall (fun c => is_space c = false) s -> trim s = s.
Proof.
  intros H. unfold trim.
  assert (H1 : trimStart s = s).
  { apply trimStart_fixed. destruct H; [exact I | assumption]. }
  rewrite H1. apply trimEnd_fixed.
  apply Forall_rev in H. destruct H; [exact I | assumption].
Qed.

Lemma replace_first_comma_after_digits D r :
  Forall (fun c => is_digit c = true) D ->
  replace_first_comma (D ++ ch "," :: r) = D ++ ch "." :: r.
Proof.
  induction 1 as [|c D Hc HD IH]; [reflexivity|].
  cbn [app replace_first_comma]. rewrite (digit_not_comma c Hc). now f_equal.
Qed.

Lemma remove_noise_digits_or_noise body :
  Forall (fun c => is_digit c = true \/ is_noise c = true) body ->
  remove_all true amount_noise body = filter is_digit body.
Proof.
  induction 1 as [|c body Hc Hb IH]; [reflexivity|].
  unfold remove_all in *. cbn [filter]. fold (is_noise c).
  destruct (is_digit c) eqn:D.
  - rewrite (digit_not_noise c D). cbn [negb]. now f_equal.
  - destruct Hc as [Hc|Hc]; [discriminate|]. rewrite Hc. exact IH.
Qed.

Lemma filter_digit_all D :
  Forall (fun c => is_digit c = true) (filter is_digit D).
Proof.
  apply Forall_forall. intros c H. apply filter_In in H. tauto.
Qed.

(** An amount written with a decimal comma and two decimals, as in
    "1 234,50 kr": the string handed to [parseFloat] is made of the digits
    before the comma, a decimal point and the two decimals. *)
Lemma cleanAmount_decimal_comma body d1 d2 tail :
  Forall (fun c => is_digit c = true \/ is_noise c = true) body ->
  is_digit d1 = true -> is_digit d2 = true ->
  Forall (fun c => is_noise c = true) tail ->
  cleanAmount (body ++ ch "," :: d1 :: d2 :: tail) =
  filter is_digit body ++ ch "." :: [d1; d2].
Proof.
  intros Hb H1 H2 Ht. unfold cleanAmount. cbv zeta.
  assert (E : remove_all true amount_noise (body ++ ch "," :: d1 :: d2 :: tail) =
              filter is_digit body ++ ch "," :: [d1; d2]).
  { rewrite remove_all_app, (remove_noise_digits_or_noise body Hb). f_equal.
    change (ch "," :: d1 :: d2 :: tail) with ([ch ","; d1; d2] ++ tail).
    rewrite remove_all_app, (remove_all_every _ _ tail Ht), app_nil_r.
    apply remove_all_none. repeat constructor; try reflexivity;
      [exact (digit_not_noise d1 H1) | exact (digit_not_noise d2 H2)]. }
  rewrite E. clear E.
  set (D := filter is_digit body).
  assert (HD : Forall (fun c => is_digit c = true) D) by apply filter_digit_all.
  assert (Hs : Forall (fun c => is_space c = false) (D ++ ch "," :: [d1; d2])).
  { apply Forall_app. split.
    - eapply Forall_impl; [|exact HD]. apply digit_not_white.
    - repeat constructor; try reflexivity; now apply digit_not_white. }
  rewrite (trim_no_space _ Hs).
  assert (T : fst (test (regex [T (one (Chr (ch ","))); T (rep digit 2 2); T Eol])
                     (D ++ ch "," :: [d1; d2])) = true).
  { unfold test, RegExpBuiltinExec.
    cbn [global sticky regex orb ignoreCase source terms_of flat_map app
         Nat.ltb Nat.leb skipn].
    unfold one at 1. rewrite search_skip_prefix; [|lia|].
    2:{ eapply Forall_impl; [|exact HD]. apply digit_comma_class. }
    destruct (digit_char d1 H1) as [E1 _]. destruct (digit_char d2 H2) as [E2 _].
    pose proof (digit_comma_class d1 H1) as C1.
    pose proof (digit_comma_class d2 H2) as C2.
    assert (C0 : char_matches false (Chr 44%N) 44%N = true) by reflexivity.
    change (ch ",") with 44%N in *.
    clear - E1 E2 C0 C1 C2. eval_chars. reflexivity. }
  rewrite T.
  rewrite remove_all_none.
  2:{ eapply Forall_impl; [|exact Hs]. intros c Hc. now rewrite char_matches_space. }
  now apply replace_first_comma_after_digits.
Qed.

Lemma comma_class c : char_matches false (Chr (ch ",")) c = (c =? ch ",")%N.
Proof.
  cbn [char_matches in_set existsb Canonicalize negb].
  rewrite orb_false_r. apply N.eqb_sym.
Qed.

Lemma remove_noise_body body :
  Forall (fun c => is_digit_or_comma c = true \/ is_noise c = true) body ->
  remove_all true amount_noise body = filter is_digit_or_comma body.
Proof.
  induction 1 as [|c body Hc Hb IH]; [reflexivity|].
  unfold remove_all in *. cbn [filter]. fold (is_noise c).
  destruct (is_digit_or_comma c) eqn:D.
  - assert (N : is_noise c = false).
    { unfold is_digit_or_comma in D. apply orb_true_iff in D.
      destruct D as [D|D]; [now apply digit_not_noise|].
      apply N.eqb_eq in D. subst. reflexivity. }
    rewrite N. cbn [negb]. now f_equal.
  - destruct Hc as [Hc|Hc]; [discriminate|]. rewrite Hc. exact IH.
Qed.

Lemma remove_commas_body body :
  remove_all false (Chr (ch ",")) (filter is_digit_or_comma body) =
  filter is_digit body.
Proof.
  unfold remove_all. induction body as [|c body IH]; [reflexivity|].
  cbn [filter]. unfold is_digit_or_comma at 1.
  destruct (is_digit c) eqn:D; cbn [orb].
  - cbn [filter]. rewrite (digit_comma_class c D). cbn [negb]. now f_equal.
  - destruct (N.eqb_spec c (ch ",")) as [->|Hc]; [exact IH|exact IH].
Qed.

(** The test /,\d{2}$/ fails on a string whose last comma, if any, stands
    before a decimal point. *)
Lemma no_decimal_comma_before_point B frac :
  Forall (fun c => is_digit_or_comma c = true) B ->
  Forall (fun c => is_digit c = true) frac ->
  fst (test (regex [T (one (Chr (ch ","))); T (rep digit 2 2); T Eol])
            (B ++ ch "." :: frac)) = false.
Proof.
  intros HB HF. unfold test, RegExpBuiltinExec.
  cbn [global sticky regex orb ignoreCase source terms_of flat_map app
       Nat.ltb Nat.leb skipn].
  destruct (search _ _ _ _ _) as [[index counts]|] eqn:E; [|reflexivity].
  exfalso. apply search_sound in E. destruct E as (n & -> & Hn & Hm).
  remember (skipn n (B ++ ch "." :: frac)) as S0 eqn:ES.
  cbn -[char_matches digit] in Hm.
  destruct counts as [|k1 counts]; [contradiction|].
  destruct Hm as (L1 & N1 & F1 & Hm).
  destruct counts as [|k2 counts]; [contradiction|].
  destruct Hm as (L2 & N2 & F2 & Hm).
  destruct counts as [|z counts]; [contradiction|].
  destruct z; [|contradiction]. destruct Hm as [Hend _].
  assert (Hall : Forall (fun c => is_digit_or_comma c = true) S0).
  { rewrite <- (firstn_skipn k1 S0). apply Forall_app. split.
    - eapply Forall_impl; [|exact F1]. intros c Hc. cbv beta in Hc.
      rewrite comma_class in Hc. unfold is_digit_or_comma. rewrite Hc.
      apply orb_true_r.
    - rewrite <- (firstn_skipn k2 (skipn k1 S0)), Hend, app_nil_r.
      eapply Forall_impl; [|exact F2]. intros c Hc. cbv beta in Hc.
      unfold is_digit_or_comma.
      assert (is_digit c = true) as ->; [|reflexivity].
      apply in_set_exact in Hc. cbn in Hc.
      repeat (destruct Hc as [<-|Hc]; [reflexivity|]). contradiction. }
  destruct (Nat.le_gt_cases n (length B)) as [Hle|Hgt].
  - assert (Hin : In (ch ".") S0).
    { rewrite ES. rewrite skipn_app. apply in_or_app. right.
      replace (n - length B) with 0 by lia. now left. }
    rewrite Forall_forall in Hall. specialize (Hall _ Hin). discriminate.
  - assert (Hd : Forall (fun c => is_digit c = true) S0).
    { rewrite ES. rewrite skipn_app. rewrite skipn_all2 by lia. cbn [app].
      destruct (n - length B) as [|j] eqn:Ej; [lia|]. cbn [skipn].
      apply Forall_forall. intros c Hc.
      rewrite Forall_forall in HF. apply HF.
      rewrite <- (firstn_skipn j frac). apply in_or_app. now right. }
    destruct S0 as [|c S0]; [simpl in N1; lia|].
    destruct k1; [lia|]. cbn [firstn] in F1. inversion F1 as [|? ? Hc _]; subst.
    rewrite comma_class in Hc. inversion Hd as [|? ? Hdc _]; subst.
    rewrite (digit_not_comma c Hdc) in Hc. discriminate.
Qed.

(** An amount written with a decimal point, as in "$1,234.56": the string
    handed to [parseFloat] is made of the digits before the point, without
    the thousands separators, the point and the decimals. *)
Lemma cleanAmount_decimal_point body frac tail :
  Forall (fun c => is_digit_or_comma c = true \/ is_noise c = true) body ->
  Forall (fun c => is_digit c = true) frac ->
  Forall (fun c => is_noise c = true) tail ->
  cleanAmount (body ++ ch "." :: frac ++ tail) =
  filter is_digit body ++ ch "." :: frac.
Proof.
  intros Hb Hf Ht. unfold cleanAmount. cbv zeta.
  assert (E : remove_all true amount_noise (body ++ ch "." :: frac ++ tail) =
              filter is_digit_or_comma body ++ ch "." :: frac).
  { rewrite remove_all_app, (remove_noise_body body Hb). f_equal.
    change (ch "." :: frac ++ tail) with ((ch "." :: frac) ++ tail).
    rewrite remove_all_app, (remove_all_every _ _ tail Ht), app_nil_r.
    apply remove_all_none. constructor; [reflexivity|].
    eapply Forall_impl; [|exact Hf]. apply digit_not_noise. }
  rewrite E. clear E.
  set (B := filter is_digit_or_comma body).
  assert (HB : Forall (fun c => is_digit_or_comma c = true) B).
  { apply Forall_forall. intros c H. apply filter_In in H. tauto. }
  assert (Hs : Forall (fun c => is_space c = false) (B ++ ch "." :: frac)).
  { apply Forall_app. split.
    - eapply Forall_impl; [|exact HB]. intros c Hc.
      unfold is_digit_or_comma in Hc. apply orb_true_iff in Hc.
      destruct Hc as [Hc|Hc]; [now apply digit_not_white|].
      apply N.eqb_eq in Hc. subst. reflexivity.
    - constructor; [reflexivity|].
      eapply Forall_impl; [|exact Hf]. apply digit_not_white. }
  rewrite (trim_no_space _ Hs).
  rewrite (no_decimal_comma_before_point B frac HB Hf).
  rewrite remove_all_app. subst B. rewrite remove_commas_body. f_equal.
  apply remove_all_none. constructor; [reflexivity|].
  eapply Forall_impl; [|exact Hf]. apply digit_comma_class.
Qed.

Section Amounts.

Variable number : Type.
Variable parseFloat : jsstring -> number.
Variable isNaN : number -> bool.

(** [parseAmount] keeps the digits of its argument, all of them and in
    their order: what it removes or replaces before it calls [parseFloat]
    is never a digit. *)
Theorem parseAmount_keeps_digits s :
  s <> [] ->
  exists cleaned,
    filter is_digit cleaned = filter is_digit s /\
    parseAmount number parseFloat isNaN s =
      if isNaN (parseFloat cleaned) then None else Some (parseFloat cleaned).
Proof.
  intros Hs. exists (cleanAmount s). split; [apply cleanAmount_keeps_digits|].
  rewrite parseAmount_cleanAmount. destruct s; [contradiction | reflexivity].
Qed.

(** An amount written with a decimal comma and two decimals, as in
    "1 234,50 kr", among digits, currency marks and white space:
    [parseFloat] is given the digits before the comma, a decimal point and
    the two decimals. *)
Theorem parseAmount_decimal_comma body d1 d2 tail :
  Forall (fun c => is_digit c = true \/ is_noise c = true) body ->
  is_digit d1 = true -> is_digit d2 = true ->
  Forall (fun c => is_noise c = true) tail ->
  parseAmount number parseFloat isNaN (body ++ ch "," :: d1 :: d2 :: tail) =
    let amount := parseFloat (filter is_digit body ++ ch "." :: [d1; d2]) in
    if isNaN amount then None else Some amount.
Proof.
  intros Hb H1 H2 Ht. rewrite parseAmount_cleanAmount.
  rewrite (cleanAmount_decimal_comma body d1 d2 tail Hb H1 H2 Ht).
  destruct body; reflexivity.
Qed.

(** An amount written with a decimal point, as in "$1,234.56": the commas
    before the point are taken for thousands separators, and [parseFloat]
    is given the digits before the point, the point and the decimals. *)
Theorem parseAmount_decimal_point body frac tail :
  Forall (fun c => is_digit_or_comma c = true \/ is_noise c = true) body ->
  Forall (fun c => is_digit c = true) frac ->
  Forall (fun c => is_noise c = true) tail ->
  parseAmount number parseFloat isNaN (body ++ ch "." :: frac ++ tail) =
    let amount := parseFloat (filter is_digit body ++ ch "." :: frac) in
    if isNaN amount then None else Some amount.
Proof.
  intros Hb Hf Ht. rewrite parseAmount_cleanAmount.
  rewrite (cleanAmount_decimal_point body frac tail Hb Hf Ht).
  destruct body; reflexivity.
Qed.

End Amounts.

Lemma parseAmount_keeps_digits_witness :
  exists cleaned,
    filter is_digit cleaned = lit "123450" /\
    parseAmount jsstring (fun s => s) (fun _ => false) (lit "1 234,50 kr") =
      Some cleaned.
Proof.
  apply (parseAmount_keeps_digits jsstring (fun s => s) (fun _ => false)
           (lit "1 234,50 kr")).
  discriminate.
Defined.

Lemma parseAmount_decimal_comma_witness :
  parseAmount jsstring (fun s => s) (fun _ => false) (lit "1 234,50 kr") =
    Some (lit "1234.50").
Proof.
  apply (parseAmount_decimal_comma jsstring (fun s => s) (fun _ => false)
           (lit "1 234") (ch "5") (ch "0") (lit " kr"));
    try reflexivity;
    repeat first [ apply Forall_nil
                 | apply Forall_cons;
                   [first [left; reflexivity | right; reflexivity | reflexivity]|] ].
Defined.

Lemma parseAmount_decimal_point_witness :
  parseAmount jsstring (fun s => s) (fun _ => false) (lit "$1,234.56") =
    Some (lit "1234.56").
Proof.
  apply (parseAmount_decimal_point jsstring (fun s => s) (fun _ => false)
           (lit "$1,234") (lit "56") []);
    repeat first [ apply Forall_nil
                 | apply Forall_cons;
                   [first [left; reflexivity | right; reflexivity | reflexivity]|] ].
Defined.

(* ================================================================== *)
(** ** From the transcription to the expense: the date *)
(* ================================================================== *)

Lemma extractField_found text R v :
  plain R ->
  fst (extractField text R) = Some v ->
  exists n counts cap,
    match_terms (ignoreCase R) (terms_of (source R)) n (skipn n text) = Some counts /\
    nth_error (captures (source R) counts n text) 0 = Some cap /\
    v = trim cap.
Proof.
  intros [Hg Hy]. unfold extractField, String_match, RegExpBuiltinExec.
  rewrite Hg, Hy. simpl.
  destruct (search _ _ _ _ _) as [[index counts]|] eqn:E; simpl; [|discriminate].
  destruct (captures (source R) counts index text) as [|cap caps] eqn:Ec;
    simpl; [discriminate|].
  intros [= <-].
  apply search_found in E. destruct E as (n & -> & _ & Hm).
  exists n, counts, cap. simpl in *. rewrite Ec. auto.
Qed.

Lemma matched_skip ic ts2 : forall ts1 counts s,
  matched ic (ts1 ++ ts2) counts s ->
  matched ic ts2 (skipn (length ts1) counts)
             (skipn (sum (firstn (length ts1) counts)) s).
Proof.
  induction ts1 as [|t ts1 IH]; intros counts s H; [exact H|].
  cbn [app] in H. destruct counts as [|k counts].
  { destruct t; contradiction. }
  cbn [length skipn firstn sum fold_right]. fold (sum (firstn (length ts1) counts)).
  rewrite Nat.add_comm, <- skipn_skipn.
  destruct t as [cs lo hi| |]; cbn [matched] in H.
  - destruct H as (_ & _ & _ & H). now apply IH.
  - destruct k; [|contradiction]. now apply IH.
  - destruct k; [|contradiction]. destruct H as [_ H]. now apply IH.
Qed.

Lemma within_max_skip ts2 : forall ts1 counts,
  within_max (ts1 ++ ts2) counts ->
  within_max ts2 (skipn (length ts1) counts).
Proof.
  induction ts1 as [|t ts1 IH]; intros counts H; [exact H|].
  cbn [app] in H. destruct counts as [|k counts].
  { destruct t; contradiction. }
  cbn [length skipn]. destruct t as [cs lo hi| |]; cbn [within_max] in H.
  - destruct H as [_ H]. now apply IH.
  - now apply IH.
  - now apply IH.
Qed.

Lemma captures_skip_terms ps input : forall pre counts pos,
  captures (map T pre ++ ps) counts pos input =
  captures ps (skipn (length pre) counts)
           (pos + sum (firstn (length pre) counts)) input.
Proof.
  induction pre as [|t pre IH]; intros counts pos.
  - cbn. now rewrite Nat.add_0_r.
  - cbn [map app captures length]. rewrite IH.
    destruct counts as [|k counts]; cbn [tl hd skipn firstn sum fold_right].
    + rewrite skipn_nil, firstn_nil. cbn. now rewrite !Nat.add_0_r.
    + fold (sum (firstn (length pre) counts)). now rewrite Nat.add_assoc.
Qed.

Lemma captures_group body counts pos input :
  captures [Group body] counts pos input =
  [substring input pos (sum (firstn (length body) counts))].
Proof. reflexivity. Qed.

Lemma terms_of_terms pre ps : terms_of (map T pre ++ ps) = pre ++ terms_of ps.
Proof.
  unfold terms_of. rewrite flat_map_app. f_equal.
  induction pre as [|t pre IH]; [reflexivity|]. cbn. now f_equal.
Qed.

Lemma firstn_add {A} (a b : nat) (s : list A) :
  firstn (a + b) s = firstn a s ++ firstn b (skipn a s).
Proof.
  revert s. induction a as [|a IH]; intros s; [reflexivity|].
  destruct s as [|c s]; cbn [Nat.add firstn skipn app].
  - now rewrite firstn_nil.
  - now rewrite IH.
Qed.

(** Without a code unit of its own in the upper-case range, a character
    matches case-insensitively only itself. *)
Lemma Canonicalize_low c u :
  (u < 65)%N -> Canonicalize true c = Canonicalize true u -> c = u.
Proof.
  intros Hu. unfold Canonicalize. cbn [negb].
  destruct (N.leb_spec 97 u); cbn [andb]; [lia|].
  destruct (N.leb_spec 224 u); cbn [andb]; [lia|].
  destruct (N.eqb_spec u 255); [lia|]. destruct (N.eqb_spec u 181); [lia|].
  destruct (N.leb_spec 97 c), (N.leb_spec c 122); cbn [andb]; try lia;
  destruct (N.leb_spec 224 c), (N.leb_spec c 254); cbn [andb]; try lia;
  try (destruct (N.eqb_spec c 247); cbn [negb]; try lia);
  destruct (N.eqb_spec c 255); try lia;
  destruct (N.eqb_spec c 181); try lia.
Qed.

Lemma in_set_low ic members c :
  Forall (fun a => (a < 65)%N) members ->
  in_set ic members c = true -> In c members.
Proof.
  intros Hlow. destruct ic; [|apply in_set_exact].
  unfold in_set. rewrite existsb_exists. intros (a & Hin & Ha).
  apply N.eqb_eq in Ha. rewrite Forall_forall in Hlow.
  symmetry in Ha. apply Canonicalize_low in Ha; [now subst | now apply Hlow].
Qed.

Lemma digit_any_case ic c : char_matches ic digit c = true -> is_digit c = true.
Proof.
  intros H. apply in_set_low in H.
  - cbn in H. repeat (destruct H as [<-|H]; [reflexivity|]). contradiction.
  - cbn. repeat constructor.
Qed.

Lemma sep_any_case ic c : char_matches ic dash_or_slash c = true -> is_sep c.
Proof.
  intros H. apply in_set_low in H.
  - cbn in H. destruct H as [<-|[<-|[]]]; [left | right]; reflexivity.
  - cbn. repeat constructor.
Qed.

Lemma digits_run ic k s :
  k <= length s ->
  Forall (fun c => char_matches ic digit c = true) (firstn k s) ->
  forallb is_digit (firstn k s) = true /\ length (firstn k s) = k.
Proof.
  intros Hk HF. split; [|rewrite length_firstn; lia].
  apply forallb_forall. rewrite Forall_forall in HF.
  intros c Hc. eapply digit_any_case. now apply HF.
Qed.

Lemma sep_run ic j s :
  1 <= j -> j <= 1 -> j <= length s ->
  Forall (fun c => char_matches ic dash_or_slash c = true) (firstn j s) ->
  exists c, firstn j s = [c] /\ is_sep c /\ skipn j s = tl s.
Proof.
  intros H1 H2 Hl HF. assert (j = 1) by lia. subst j.
  destruct s as [|c s]; [simpl in Hl; lia|].
  exists c. cbn [firstn] in HF. inversion HF; subst.
  repeat split. eapply sep_any_case; eassumption.
Qed.

(** What a match of the group body consumed has the shape of a date. *)
Lemma date_body_shape ic a1 b1 a2 b2 a3 b3 counts s :
  matched ic (date_body a1 b1 a2 b2 a3 b3) counts s ->
  within_max (date_body a1 b1 a2 b2 a3 b3) counts ->
  length counts = 5 /\ date_shape a1 b1 a2 b2 a3 b3 (firstn (sum counts) s).
Proof.
  unfold date_body, rep, one. intros Hs Hb.
  destruct counts as [|k1 [|j1 [|k2 [|j2 [|k3 [|]]]]]];
    cbn [matched within_max] in Hs, Hb; try contradiction;
    try (decompose [and] Hs; contradiction).
  destruct Hs as (L1 & N1 & F1 & Lj1 & Nj1 & Fj1 & L2 & N2 & F2 &
                  Lj2 & Nj2 & Fj2 & L3 & N3 & F3 & _).
  destruct Hb as (B1 & Bj1 & B2 & Bj2 & B3 & _).
  split; [reflexivity|].
  cbn [sum fold_right]. rewrite Nat.add_0_r.
  rewrite !firstn_add.
  destruct (digits_run ic k1 s N1 F1) as [D1 E1].
  destruct (sep_run ic j1 _ Lj1 Bj1 Nj1 Fj1) as (s1 & -> & S1 & _).
  destruct (digits_run ic k2 _ N2 F2) as [D2 E2].
  destruct (sep_run ic j2 _ Lj2 Bj2 Nj2 Fj2) as (s2 & -> & S2 & _).
  destruct (digits_run ic k3 _ N3 F3) as [D3 E3].
  rewrite !skipn_skipn in *.
  eexists _, s1, _, s2, _. split; [reflexivity|].
  repeat split; rewrite ?Nat.add_assoc; try assumption;
    rewrite ?E1, ?E2, ?E3; lia.
Qed.

Lemma is_sep_not_space c : is_sep c -> is_space c = false.
Proof. intros [->| ->]; reflexivity. Qed.

Lemma forallb_digit_no_space g :
  forallb is_digit g = true -> Forall (fun c => is_space c = false) g.
Proof.
  intros H. apply Forall_forall. intros c Hc.
  apply digit_not_white. rewrite forallb_forall in H. now apply H.
Qed.

Lemma date_shape_trim a1 b1 a2 b2 a3 b3 v :
  date_shape a1 b1 a2 b2 a3 b3 v -> trim v = v.
Proof.
  intros (g1 & s1 & g2 & s2 & g3 & -> & D1 & _ & D2 & _ & D3 & _ & S1 & S2).
  apply trim_no_space.
  apply Forall_app. split; [now apply forallb_digit_no_space|].
  constructor; [now apply is_sep_not_space|].
  apply Forall_app. split; [now apply forallb_digit_no_space|].
  constructor; [now apply is_sep_not_space|].
  now apply forallb_digit_no_space.
Qed.

(** The value of a pattern that ends with the capturing group of a date. *)
Lemma date_capture_shape pre ic a1 b1 a2 b2 a3 b3 text v :
  fst (extractField text
         (mkRegExp (map T pre ++ [Group (date_body a1 b1 a2 b2 a3 b3)])
                   ic false false 0)) = Some v ->
  date_shape a1 b1 a2 b2 a3 b3 v.
Proof.
  intros H. apply extractField_found in H; [|split; reflexivity].
  destruct H as (n & counts & cap & Hm & Hc & ->).
  cbn [source ignoreCase] in Hm, Hc.
  rewrite terms_of_terms in Hm.
  change (terms_of [Group (date_body a1 b1 a2 b2 a3 b3)])
    with (date_body a1 b1 a2 b2 a3 b3 ++ []) in Hm.
  rewrite app_nil_r in Hm.
  pose proof (matched_skip _ _ _ _ _ (match_terms_sound _ _ _ _ _ Hm)) as Hs.
  pose proof (within_max_skip _ _ _ (match_terms_within_max _ _ _ _ _ Hm)) as Hb.
  destruct (date_body_shape _ _ _ _ _ _ _ _ _ Hs Hb) as [Hl Hshape].
  rewrite captures_skip_terms, captures_group in Hc. cbn [nth_error] in Hc.
  assert (E : cap =
              firstn (sum (skipn (length pre) counts))
                (skipn (sum (firstn (length pre) counts)) (skipn n text))).
  { assert (Ec : cap = substring text (n + sum (firstn (length pre) counts))
                (sum (firstn (length (date_body a1 b1 a2 b2 a3 b3))
                        (skipn (length pre) counts)))) by congruence.
    rewrite Ec. unfold substring. rewrite skipn_skipn. f_equal.
    - f_equal. change (length (date_body a1 b1 a2 b2 a3 b3)) with 5.
      rewrite <- Hl. apply firstn_all.
    - f_equal. lia. }
  rewrite E. rewrite (date_shape_trim _ _ _ _ _ _ _ Hshape). exact Hshape.
Qed.

(** Every date pattern of [parseBankReceiptText] gives a value of one of
    the two shapes. *)
Lemma date_patterns_shape text r v :
  In r (date_patterns literals) ->
  fst (extractField text r) = Some v ->
  date_shape 1 2 1 2 2 4 v \/ date_shape 4 4 1 2 1 2 v.
Proof.
  intros Hin H. cbn [date_patterns literals] in Hin.
  destruct Hin as [<-|[<-|[<-|[<-|[<-|[]]]]]].
  - left.
    apply (date_capture_shape
             (chars (lit "DATE") ++ [plus colon_or_space]) true 1 2 1 2 2 4 text v).
    exact H.
  - left.
    apply (date_capture_shape
             (chars (lit "Transaction Date") ++ [plus colon_or_space])
             true 1 2 1 2 2 4 text v).
    exact H.
  - left.
    apply (date_capture_shape
             (chars (lit "Datum") ++ [plus colon_or_space]) true 1 2 1 2 2 4 text v).
    exact H.
  - right. apply (date_capture_shape [] false 4 4 1 2 1 2 text v). exact H.
  - left. apply (date_capture_shape [] false 1 2 1 2 2 4 text v). exact H.
Qed.

Ltac digits_known :=
  repeat match goal with
         | H : _ && _ = true |- _ => apply andb_true_iff in H; destruct H
         end;
  repeat match goal with
         | H : is_digit ?c = true |- _ =>
             lazymatch goal with
             | _ : char_matches false digit c = true |- _ => fail
             | _ => destruct (digit_char c H)
             end
         end.

(** A string of the first shape matches the first format. *)
Lemma month_first_matches v :
  date_shape 1 2 1 2 2 4 v ->
  fst (String_match v format_month_first) <> None.
Proof.
  intros (g1 & s1 & g2 & s2 & g3 & -> & D1 & L1 & D2 & L2 & D3 & L3 & S1 & S2).
  destruct (sep_char _ S1) as [S1d S1s]. destruct (sep_char _ S2) as [S2d S2s].
  destruct g1 as [|a [|b [|]]]; simpl in L1; try lia;
  destruct g2 as [|c [|d [|]]]; simpl in L2; try lia;
  destruct g3 as [|e [|f [|g [|i [|]]]]]; simpl in L3; try lia;
  simpl in D1, D2, D3; digits_known.
  all: unfold format_month_first, String_match, RegExpBuiltinExec.
  all: eval_chars.
  all: discriminate.
Qed.

(** A string of the second shape matches the second format. *)
Lemma year_first_matches v :
  date_shape 4 4 1 2 1 2 v ->
  fst (String_match v format_year_first) <> None.
Proof.
  intros (g1 & s1 & g2 & s2 & g3 & -> & D1 & L1 & D2 & L2 & D3 & L3 & S1 & S2).
  destruct (sep_char _ S1) as [S1d S1s]. destruct (sep_char _ S2) as [S2d S2s].
  destruct g1 as [|a [|b [|c [|d [|]]]]]; simpl in L1; try lia;
  destruct g2 as [|e [|f [|]]]; simpl in L2; try lia;
  destruct g3 as [|g [|i [|]]]; simpl in L3; try lia;
  simpl in D1, D2, D3; digits_known.
  all: unfold format_year_first, String_match, RegExpBuiltinExec.
  all: eval_chars.
  all: discriminate.
Qed.

Lemma date_shape_parsed v :
  date_shape 1 2 1 2 2 4 v \/ date_shape 4 4 1 2 1 2 v ->
  exists d, parseDate_loop 0 formats v = Some d /\ isValid d = true.
Proof.
  intros H.
  destruct (fst (String_match v format_month_first)) as [m|] eqn:E1.
  { exact (parseDate_loop_month_first v m E1). }
  destruct H as [H|H].
  { apply month_first_matches in H. contradiction. }
  destruct (fst (String_match v format_year_first)) as [m|] eqn:E2.
  { exact (parseDate_loop_year_first v m E1 E2). }
  apply year_first_matches in H. contradiction.
Qed.

Lemma date_shape_nonempty a1 b1 a2 b2 a3 b3 v :
  date_shape a1 b1 a2 b2 a3 b3 v -> exists c r, v = c :: r.
Proof.
  intros (g1 & s1 & g2 & s2 & g3 & -> & _).
  destruct g1; cbn; eauto.
Qed.

Section Conversion.

Variable number : Type.
Variable zero : number.
Variable number_truthy : number -> bool.
Variable parseFloat : jsstring -> number.
Variable isNaN : number -> bool.
Variable parseISO : jsstring -> Date.

(** Every date that [parseBankReceiptText] extracts is read by [parseDate]
    with one of its two formats, and the result is a valid date:
    [receiptDataToExpense] takes that date, never the current time and
    never what [parseISO] would give. *)
Theorem extracted_date_is_parsed text v now :
  Receipt.date (parseBankReceiptText text) = Some v ->
  exists d,
    parseDate_loop 0 formats v = Some d /\
    parseDate parseISO v = Some d /\
    isValid d = true /\
    Expenses.date number
      (Expenses.receiptDataToExpense number zero number_truthy parseFloat isNaN
         parseISO now (parseBankReceiptText text)) = d.
Proof.
  intros H. pose proof H as H0.
  rewrite parseBankReceiptText_fields in H. cbn [Receipt.date] in H.
  apply or_chain_value in H. destruct H as [(r & Hin & Hr) _].
  pose proof (date_patterns_shape text r v Hin Hr) as Hshape.
  destruct (date_shape_parsed v Hshape) as (d & Hd & Hv).
  assert (Hne : exists c r, v = c :: r).
  { destruct Hshape as [S|S]; eapply date_shape_nonempty; exact S. }
  exists d. repeat split; try assumption.
  - unfold parseDate. now rewrite Hd.
  - unfold Expenses.receiptDataToExpense. cbn [Expenses.date]. rewrite H0.
    destruct Hne as (c & r0 & ->). unfold parseDate. now rewrite Hd.
Qed.

End Conversion.

Lemma extracted_date_is_parsed_witness :
  exists d,
    parseDate_loop 0 formats (lit "2025-03-14") = Some d /\
    parseDate (fun _ => InvalidDate) (lit "2025-03-14") = Some d /\
    isValid d = true /\
    Expenses.date Z
      (Expenses.receiptDataToExpense Z 0%Z (fun z => negb (Z.eqb z 0))
         (fun _ => 0%Z) (fun _ => false) (fun _ => InvalidDate) InvalidDate
         (parseBankReceiptText unlabelled_receipt)) = d.
Proof.
  apply (extracted_date_is_parsed Z 0%Z (fun z => negb (Z.eqb z 0))
           (fun _ => 0%Z) (fun _ => false) (fun _ => InvalidDate)
           unlabelled_receipt (lit "2025-03-14") InvalidDate).
  vm_compute. reflexivity.
Defined.

(* ================================================================== *)
(** ** The OCR pipeline: progress, success, and extractPDFText *)
(* ================================================================== *)

Lemma emits_ret {A} Q (a : A) : emits Q (ret a).
Proof. intros s. exists []. rewrite app_nil_r. auto. Qed.

Lemma emits_throw {A} Q e : emits Q (@throw A e).
Proof. intros s. exists []. rewrite app_nil_r. auto. Qed.

Lemma emits_log (Q : event -> Prop) e : Q e -> emits Q (log e).
Proof. intros H s. exists [e]. auto. Qed.

Lemma emits_bind {A B} Q (m : M A) (k : A -> M B) :
  emits Q m -> (forall a, emits Q (k a)) -> emits Q (bind m k).
Proof.
  intros Hm Hk s. unfold bind. destruct (Hm s) as (a1 & E1 & F1).
  destruct (m s) as [[a|e] s1]; cbn [snd] in *.
  - destruct (Hk a s1) as (a2 & E2 & F2). exists (a1 ++ a2).
    rewrite E2, E1, app_assoc. split; [reflexivity|]. apply Forall_app; auto.
  - exists a1. auto.
Qed.

Lemma emits_call {A} (Q : event -> Prop) e (answer : outcome A) :
  Q e -> emits Q (call e answer).
Proof.
  intros H. unfold call. apply emits_bind; [now apply emits_log|].
  intros _ s. exists []. rewrite app_nil_r. auto.
Qed.

Lemma emits_try_finally {A} Q (body : M A) fin :
  emits Q body -> emits Q fin -> emits Q (try_finally body fin).
Proof.
  intros Hb Hf s. unfold try_finally. destruct (Hb s) as (a1 & E1 & F1).
  destruct (body s) as [r s1]. cbn [snd] in *.
  destruct (Hf s1) as (a2 & E2 & F2).
  destruct (fin s1) as [[[]|e] s2]; cbn [snd] in *;
    exists (a1 ++ a2); rewrite E2, E1, app_assoc;
    (split; [reflexivity | apply Forall_app; auto]).
Qed.

Lemma emits_try_catch {A} Q (body : M A) handler :
  emits Q body -> (forall e, emits Q (handler e)) ->
  emits Q (try_catch body handler).
Proof.
  intros Hb Hh s. unfold try_catch. destruct (Hb s) as (a1 & E1 & F1).
  destruct (body s) as [[a|e] s1]; cbn [snd] in *.
  - exists a1. auto.
  - destruct (Hh e s1) as (a2 & E2 & F2). exists (a1 ++ a2).
    rewrite E2, E1, app_assoc. split; [reflexivity|]. apply Forall_app; auto.
Qed.

Lemma emits_bookkeeping Q :
  emits Q document_opened /\ emits Q document_closed /\
  emits Q worker_started /\ emits Q worker_stopped.
Proof.
  repeat split; intros s; exists []; rewrite app_nil_r; auto.
Qed.

Lemma pdfToImageDataURL_emits h file : emits not_progress (pdfToImageDataURL h file).
Proof.
  destruct (emits_bookkeeping not_progress) as (Ho & Hc & _).
  unfold pdfToImageDataURL.
  do 4 (apply emits_bind; [first [apply emits_call; exact I | assumption] | intros]).
  apply emits_bind; [apply emits_call; exact I | intros context].
  destruct (negb context); [apply emits_throw|].
  do 3 (apply emits_bind; [first [apply emits_call; exact I | assumption] | intros]).
  apply emits_call; exact I.
Qed.

(** [extractTextWithOCR] makes no progress report. *)
Lemma extractTextWithOCR_emits h file : emits not_progress (extractTextWithOCR h file).
Proof.
  destruct (emits_bookkeeping not_progress) as (_ & _ & Hs & Ht).
  unfold extractTextWithOCR.
  apply emits_bind; [apply emits_call; exact I | intros].
  apply emits_bind; [assumption | intros].
  apply emits_try_finally.
  - apply emits_bind; [|intros; apply emits_call; exact I].
    destruct (is_application_pdf file); [|apply emits_ret].
    apply emits_bind; [apply pdfToImageDataURL_emits | intros; apply emits_ret].
  - apply emits_bind; [apply emits_call; exact I | intros; assumption].
Qed.

Lemma not_progress_reports added :
  Forall not_progress added -> progress_reports added = [].
Proof.
  induction 1 as [|e l He Hl IH]; [reflexivity|].
  unfold progress_reports in *. cbn [flat_map]. rewrite IH.
  destruct e; try reflexivity. contradiction.
Qed.

Lemma progress_reports_app a b :
  progress_reports (a ++ b) = progress_reports a ++ progress_reports b.
Proof. apply flat_map_app. Qed.

Lemma report_spec cb n s :
  exists r s' added,
    report cb n s = (r, s') /\ trace s' = trace s ++ added /\
    progress_reports added = reported cb n /\
    open_documents s' = open_documents s /\ live_workers s' = live_workers s.
Proof.
  destruct cb as [f|]; cbn [report reported].
  - unfold call, bind, log. do 2 eexists. exists [onProgress_call n].
    repeat split.
  - unfold ret. do 2 eexists. exists []. rewrite app_nil_r. repeat split.
Qed.

Lemma recover_spec err s :
  exists message s' added,
    recover err s = (Return (failure message), s') /\
    trace s' = trace s ++ added /\ progress_reports added = [].
Proof.
  destruct err; cbn [recover]; unfold bind, log, ret; cbn [trace];
    do 2 eexists;
    first [ exists []; rewrite app_nil_r; repeat split; reflexivity
          | exists [console_error_call]; repeat split; reflexivity ].
Qed.

Lemma attempt_progress h file cb s out s' :
  attempt h file cb s = (out, s') ->
  exists added,
    trace s' = trace s ++ added /\
    begins (progress_reports added) [10; 90; 100]%N /\
    (forall r, out = Return r ->
               progress_reports added =
               reported cb 10 ++ reported cb 90 ++ reported cb 100).
Proof.
  assert (Hnil : forall e : exn, exists added : list event,
            trace s = trace s ++ added /\
            begins (progress_reports added) [10; 90; 100]%N /\
            (forall r : result, @Throw result e = Return r ->
               progress_reports added =
               reported cb 10 ++ reported cb 90 ++ reported cb 100)).
  { intros e. exists []. rewrite app_nil_r. repeat split;
      [eexists; reflexivity | discriminate]. }
  unfold attempt.
  destruct (_ && _); [intros [= <- <-]; apply Hnil|].
  destruct (_ <? _)%N; [intros [= <- <-]; apply Hnil|].
  destruct (_ =? _)%N; [intros [= <- <-]; apply Hnil|].
  clear Hnil. unfold bind at 1.
  destruct (report_spec cb 10 s) as (r1 & s1 & a1 & E1 & T1 & P1 & _).
  rewrite E1.
  assert (B1 : begins (progress_reports a1) [10; 90; 100]%N).
  { rewrite P1. destruct cb; eexists; reflexivity. }
  destruct r1 as [[]|e].
  2:{ intros [= <- <-]. exists a1. repeat split; auto; discriminate. }
  unfold bind at 1.
  destruct (extractTextWithOCR_emits h file s1) as (a2 & T2 & Q2).
  apply not_progress_reports in Q2.
  destruct (extractTextWithOCR h file s1) as [r2 s2]. cbn [snd] in T2.
  assert (T2' : trace s2 = trace s ++ (a1 ++ a2))
    by now rewrite T2, T1, app_assoc.
  assert (B2 : begins (progress_reports (a1 ++ a2)) [10; 90; 100]%N)
    by now rewrite progress_reports_app, Q2, app_nil_r.
  destruct r2 as [fullText|e].
  2:{ intros [= <- <-]. eexists. repeat split; eauto; discriminate. }
  unfold bind at 1.
  destruct (report_spec cb 90 s2) as (r3 & s3 & a3 & E3 & T3 & P3 & _).
  rewrite E3.
  assert (T3' : trace s3 = trace s ++ (a1 ++ a2 ++ a3))
    by now rewrite T3, T2', <- !app_assoc.
  assert (B3 : begins (progress_reports (a1 ++ a2 ++ a3)) [10; 90; 100]%N).
  { rewrite !progress_reports_app, Q2, P1, P3.
    destruct cb; eexists; reflexivity. }
  destruct r3 as [[]|e].
  2:{ intros [= <- <-]. eexists. repeat split; eauto; discriminate. }
  destruct (length (trim fullText) =? 0).
  { intros [= <- <-]. eexists. repeat split; eauto; discriminate. }
  unfold bind at 1.
  destruct (report_spec cb 100 s3) as (r4 & s4 & a4 & E4 & T4 & P4 & _).
  rewrite E4.
  assert (T4' : trace s4 = trace s ++ (a1 ++ a2 ++ a3 ++ a4))
    by now rewrite T4, T3', <- !app_assoc.
  assert (P : progress_reports (a1 ++ a2 ++ a3 ++ a4) =
              reported cb 10 ++ reported cb 90 ++ reported cb 100)
    by now rewrite !progress_reports_app, Q2, P1, P3, P4.
  assert (B4 : begins (progress_reports (a1 ++ a2 ++ a3 ++ a4)) [10; 90; 100]%N).
  { rewrite P. destruct cb; eexists; reflexivity. }
  destruct r4 as [[]|e].
  2:{ intros [= <- <-]. eexists. repeat split; eauto; discriminate. }
  unfold ret. intros [= <- <-]. eexists. repeat split; eauto.
Qed.

(** [parseBankReceiptPDF] reports progress 10, 90 and 100, in this order
    and each at most once: what is reported in one call is a beginning of
    that list, and the whole list when the call succeeds (nothing when no
    callback is given). *)
Theorem parseBankReceiptPDF_progress h file cb s :
  exists added,
    trace (snd (parseBankReceiptPDF h file cb s)) = trace s ++ added /\
    begins (progress_reports added) [10; 90; 100]%N /\
    (forall r, fst (parseBankReceiptPDF h file cb s) = Return r ->
               success r = true ->
               progress_reports added =
               reported cb 10 ++ reported cb 90 ++ reported cb 100).
Proof.
  unfold parseBankReceiptPDF, try_catch.
  destruct (attempt h file cb s) as [out s1] eqn:E.
  destruct (attempt_progress _ _ _ _ _ _ E) as (a1 & T1 & B1 & P1).
  destruct out as [r|err].
  - cbn [fst snd]. exists a1. repeat split; auto.
    intros r0 Hr _. exact (P1 r0 Hr).
  - destruct (recover_spec err s1) as (msg & s' & a2 & E2 & T2 & P2).
    rewrite E2. cbn [fst snd]. exists (a1 ++ a2).
    rewrite T2, T1, app_assoc, progress_reports_app, P2, app_nil_r.
    repeat split; [exact B1|]. intros r [= <-]. discriminate.
Qed.

(** On success the raw text is what the recognition returned, it is not
    blank, the data are the fields extracted from it, and every field that
    is present occurs in it. *)
Theorem parseBankReceiptPDF_success h file cb s r s' :
  parseBankReceiptPDF h file cb s = (Return r, s') -> success r = true ->
  exists t src,
    recognize h src = Return t /\ trim t <> [] /\
    rawText r = Some t /\ data r = Some (parseBankReceiptText t) /\
    (forall v, In (Some v) (fields (parseBankReceiptText t)) ->
               trim v = v /\ is_substring v t).
Proof.
  unfold parseBankReceiptPDF, try_catch.
  destruct (attempt h file cb s) as [[r0|err] s1] eqn:E.
  2:{ destruct (recover_returns_failure err s1) as (msg & s2 & ->).
      intros [= <- <-]. discriminate. }
  intros [= <- <-] _.
  destruct (attempt_returns_text _ _ _ _ _ _ E) as (t & src & Hsrc & Ht & ->).
  exists t, src. cbn [rawText data]. repeat split; try assumption.
  - rewrite parseBankReceiptText_fields in H.
    destruct literals_plain as (Pf & Pt & Pa & Pty & Pd).
    unfold fields in H. cbn [In from to amount transactionType date] in H.
    destruct H as [H|[H|[H|[H|[H|[]]]]]];
      (eapply or_chain_trimmed_substring; [|exact H]; assumption).
  - rewrite parseBankReceiptText_fields in H.
    destruct literals_plain as (Pf & Pt & Pa & Pty & Pd).
    unfold fields in H. cbn [In from to amount transactionType date] in H.
    destruct H as [H|[H|[H|[H|[H|[]]]]]];
      (eapply or_chain_trimmed_substring; [|exact H]; assumption).
Qed.

Lemma parseBankReceiptPDF_success_witness :
  exists t src,
    recognize obliging_host src = Return t /\ trim t <> [] /\
    rawText (mkResult true (Some (parseBankReceiptText (lit "TOTAL 12.00")))
               (Some (lit "TOTAL 12.00")) None) = Some t /\
    data (mkResult true (Some (parseBankReceiptText (lit "TOTAL 12.00")))
               (Some (lit "TOTAL 12.00")) None) = Some (parseBankReceiptText t) /\
    (forall v, In (Some v) (fields (parseBankReceiptText t)) ->
               trim v = v /\ is_substring v t).
Proof.
  eapply (parseBankReceiptPDF_success obliging_host an_image_file None initial).
  - vm_compute. reflexivity.
  - reflexivity.
Defined.

Lemma report_returns cb n s :
  (forall f, cb = Some f -> f n = Return tt) ->
  exists s', report cb n s = (Return tt, s').
Proof.
  intros H. destruct cb as [f|]; cbn [report].
  - unfold call, bind, log. rewrite (H f eq_refl). eauto.
  - unfold ret. eauto.
Qed.

Lemma text_attempt_returns_success h file cb s r s' :
  PDFText.attempt h file cb s = (Return r, s') ->
  exists t, r = PDFText.mkResult true (Some t) None /\ trim t <> [].
Proof.
  unfold PDFText.attempt.
  destruct (_ && _); [discriminate|].
  destruct (_ <? _)%N; [discriminate|].
  unfold bind.
  destruct (report cb 10 s) as [[[]|e] s1]; [|discriminate].
  destruct (extractTextWithOCR h file s1) as [[t|e] s2]; [|discriminate].
  destruct (report cb 100 s2) as [[[]|e] s3]; [|discriminate].
  destruct (length (trim t) =? 0) eqn:El; [discriminate|].
  unfold ret. intros [= <- <-]. exists t. split; [reflexivity|].
  intros Ht. rewrite Ht in El. discriminate.
Qed.

(** [extractPDFText] returns an object and never throws; a failure carries
    a message and no text, a success a text that is not blank and no
    message. *)
Theorem extractPDFText_never_throws h file cb s :
  exists r s',
    PDFText.extractPDFText h file cb s = (Return r, s') /\
    (PDFText.success r = false ->
     PDFText.text r = None /\ exists message, PDFText.error r = Some message) /\
    (PDFText.success r = true ->
     PDFText.error r = None /\
     exists t, PDFText.text r = Some t /\ trim t <> []).
Proof.
  unfold PDFText.extractPDFText, try_catch.
  destruct (PDFText.attempt h file cb s) as [[r|err] s1] eqn:E.
  - exists r, s1. split; [reflexivity|].
    destruct (text_attempt_returns_success _ _ _ _ _ _ E) as (t & -> & Ht).
    split; [discriminate|]. intros _. split; [reflexivity|]. now exists t.
  - destruct err; cbn [PDFText.recover]; unfold ret; do 2 eexists;
      (split; [reflexivity|]); cbn; (split; [eauto | discriminate]).
Qed.

(** [extractTextWithOCR] begins with the call of [createWorker]. *)
Lemma extractTextWithOCR_creates_worker h file s :
  exists added,
    trace (snd (extractTextWithOCR h file s)) =
    trace s ++ createWorker_call :: added.
Proof.
  unfold extractTextWithOCR.
  set (rest := bind worker_started _).
  assert (Hrest : emits (fun _ => True) rest).
  { subst rest. intros s0.
    destruct (extractTextWithOCR_emits h file s0) as (a & _ & _).
    clear a. unfold bind at 1. cbn [worker_started].
    set (s1 := mkState _ _ _).
    assert (Ht : trace s1 = trace s0) by reflexivity. rewrite <- Ht.
    clearbody s1. clear Ht.
    assert (E : emits (fun _ => True)
      (try_finally
        (imageSource <-
           (if is_application_pdf file
            then url <- pdfToImageDataURL h file;; ret (DataURL url)
            else ret TheFile);;
         call (recognize_call imageSource) (recognize h imageSource))
        (call terminate_call (terminate h);;; worker_stopped))).
    { destruct (emits_bookkeeping (fun _ : event => True)) as (_ & _ & _ & Hw).
      apply emits_try_finally.
      - apply emits_bind; [|intros; apply emits_call; exact I].
        destruct (is_application_pdf file); [|apply emits_ret].
        apply emits_bind; [|intros; apply emits_ret].
        intros s2. destruct (pdfToImageDataURL_emits h file s2) as (a & Ha & _).
        exists a. split; [exact Ha|]. apply Forall_forall. auto.
      - apply emits_bind; [apply emits_call; exact I | intros; exact Hw]. }
    exact (E s1). }
  unfold bind at 1. unfold call, bind, log. cbn [trace].
  destruct (createWorker h) as [[]|e]; cbn [snd trace].
  - match goal with |- context [rest ?s0] => destruct (Hrest s0) as (a & Ha & _) end.
    exists a. rewrite Ha. cbn [trace]. now rewrite <- app_assoc.
  - exists []. reflexivity.
Qed.

(** [extractPDFText] has no check for an empty file: for an accepted type
    a file of size 0 goes on to the recognition ([createWorker] is
    called), where [parseBankReceiptPDF] refuses it as empty without any
    call. *)
Theorem extractPDFText_accepts_empty_file h file cb s :
  type_accepted file = true -> size file = 0%N ->
  (forall f, cb = Some f -> f 10%N = Return tt) ->
  In createWorker_call (trace (snd (PDFText.extractPDFText h file cb s))) /\
  parseBankReceiptPDF h file cb s = (Return (failure empty_message), s).
Proof.
  intros Ht Hsz Hcb. split.
  2:{ apply rejected_file. unfold rejection. now rewrite Ht, Hsz. }
  unfold PDFText.extractPDFText, try_catch, PDFText.attempt.
  rewrite type_accepted_negb, Ht, Hsz.
  change (10 * 1024 * 1024 <? 0)%N with false. cbn [negb].
  unfold bind at 1. destruct (report_returns cb 10 s Hcb) as [s1 ->].
  unfold bind at 1.
  destruct (extractTextWithOCR_creates_worker h file s1) as (a & Ha).
  destruct (extractTextWithOCR h file s1) as [[t|e] s2]; cbn [snd] in Ha.
  - unfold bind at 1.
    destruct (report_spec cb 100 s2) as (r3 & s3 & a3 & E3 & T3 & _).
    rewrite E3.
    assert (Hin : In createWorker_call (trace s3)).
    { rewrite T3, Ha. apply in_or_app. left. apply in_or_app. right. now left. }
    destruct r3 as [[]|e].
    + destruct (length (trim t) =? 0); exact Hin.
    + destruct e; exact Hin.
  - assert (Hin : In createWorker_call (trace s2)).
    { rewrite Ha. apply in_or_app. right. now left. }
    destruct e; exact Hin.
Qed.

Lemma extractPDFText_accepts_empty_file_witness :
  In createWorker_call
     (trace (snd (PDFText.extractPDFText obliging_host
                    (mkFile (lit "image/png") 0) None initial))) /\
  parseBankReceiptPDF obliging_host (mkFile (lit "image/png") 0) None initial =
    (Return (failure empty_message), initial).
Proof.
  apply (extractPDFText_accepts_empty_file obliging_host
           (mkFile (lit "image/png") 0) None initial);
    [reflexivity | reflexivity | discriminate].
Defined.

(** When the recognition returns only white space, both entry points fail
    with their message for missing text. *)
Theorem blank_transcription_is_refused h file cb s t :
  rejection file = None ->
  (forall f n, cb = Some f -> f n = Return tt) ->
  (forall s0, exists s1, extractTextWithOCR h file s0 = (Return t, s1)) ->
  trim t = [] ->
  (exists s',
     parseBankReceiptPDF h file cb s =
     (Return (failure (lit "No text content found. The image might be too blurry or low quality.")), s')) /\
  (exists s',
     PDFText.extractPDFText h file cb s =
     (Return (PDFText.failure (lit "No text content found.")), s')).
Proof.
  intros Hrej Hcb Hocr Ht.
  assert (Hc : forall n s0, exists s1, report cb n s0 = (Return tt, s1)).
  { intros n s0. apply report_returns. intros f Hf. now apply Hcb. }
  unfold rejection in Hrej.
  destruct (negb (type_accepted file)) eqn:Ea; [discriminate|].
  destruct (maxSize <? size file)%N eqn:Em; [discriminate|].
  destruct (size file =? 0)%N eqn:Ez; [discriminate|].
  split.
  - unfold parseBankReceiptPDF, try_catch, attempt.
    rewrite type_accepted_negb, Ea, Em, Ez. unfold bind.
    destruct (Hc 10%N s) as [s1 ->]. destruct (Hocr s1) as [s2 ->].
    destruct (Hc 90%N s2) as [s3 ->]. rewrite Ht. cbn [length Nat.eqb].
    unfold throw. cbn [recover]. unfold ret. eauto.
  - unfold PDFText.extractPDFText, try_catch, PDFText.attempt.
    rewrite type_accepted_negb, Ea. change (10 * 1024 * 1024)%N with maxSize.
    rewrite Em. unfold bind.
    destruct (Hc 10%N s) as [s1 ->]. destruct (Hocr s1) as [s2 ->].
    destruct (Hc 100%N s2) as [s3 ->]. rewrite Ht. cbn [length Nat.eqb].
    unfold throw. cbn [PDFText.recover]. unfold ret. eauto.
Qed.

Lemma blank_transcription_is_refused_witness :
  (exists s',
     parseBankReceiptPDF host_reading_nothing an_image_file None initial =
     (Return (failure (lit "No text content found. The image might be too blurry or low quality.")), s')) /\
  (exists s',
     PDFText.extractPDFText host_reading_nothing an_image_file None initial =
     (Return (PDFText.failure (lit "No text content found.")), s')).
Proof.
  apply (blank_transcription_is_refused host_reading_nothing an_image_file
           None initial (lit "   ")).
  - reflexivity.
  - discriminate.
  - intros s0. eexists. reflexivity.
  - reflexivity.
Defined.

Lemma bind_ret {A B} (a : A) (k : A -> M B) : bind (ret a) k = k a.
Proof. reflexivity. Qed.

Lemma emits_report Q cb n : Q (onProgress_call n) -> emits Q (report cb n).
Proof.
  intros H. destruct cb; cbn [report]; [now apply emits_call | apply emits_ret].
Qed.

Lemma emits_recover Q err : Q console_error_call -> emits Q (recover err).
Proof.
  intros H. destruct err; cbn [recover]; try apply emits_ret;
    (apply emits_bind; [now apply emits_log | intros; apply emits_ret]).
Qed.

(** Only a file whose type is exactly [application/pdf] is rendered:
    for any other file, whatever the host answers, [parseBankReceiptPDF]
    makes no call of pdf.js or of the canvas, and the recognition, if it
    is asked for, is given the file itself. *)
Theorem only_application_pdf_is_rendered h file cb :
  type file <> lit "application/pdf" ->
  emits no_rendering (parseBankReceiptPDF h file cb).
Proof.
  intros Ht.
  assert (E : is_application_pdf file = false).
  { unfold is_application_pdf. now apply jsstring_eqb_neq. }
  destruct (emits_bookkeeping no_rendering) as (_ & _ & Hs & Hw).
  unfold parseBankReceiptPDF. apply emits_try_catch.
  2:{ intros err. apply emits_recover. exact I. }
  unfold attempt.
  destruct (_ && _); [apply emits_throw|].
  destruct (_ <? _)%N; [apply emits_throw|].
  destruct (_ =? _)%N; [apply emits_throw|].
  apply emits_bind; [apply emits_report; exact I | intros _].
  apply emits_bind.
  - unfold extractTextWithOCR. rewrite E.
    apply emits_bind; [apply emits_call; exact I | intros _].
    apply emits_bind; [exact Hs | intros _].
    apply emits_try_finally.
    + rewrite bind_ret. apply emits_call. exact I.
    + apply emits_bind; [apply emits_call; exact I | intros; exact Hw].
  - intros fullText.
    apply emits_bind; [apply emits_report; exact I | intros _].
    destruct (length (trim fullText) =? 0); [apply emits_throw|].
    apply emits_bind; [apply emits_report; exact I | intros _].
    apply emits_ret.
Qed.

Lemma only_application_pdf_is_rendered_witness :
  type_accepted an_x_pdf_file = true /\
  emits no_rendering (parseBankReceiptPDF obliging_host an_x_pdf_file None).
Proof.
  split; [reflexivity|].
  apply (only_application_pdf_is_rendered obliging_host an_x_pdf_file None).
  discriminate.
Defined.

(* ================================================================== *)
(** ** usePDFUpload: the state after an upload *)
(* ================================================================== *)

(** After [uploadPDF] the hook is no longer uploading and shows either
    the parsed data with the raw text they were extracted from, and no
    error, or an error message that is not empty and neither data nor raw
    text.  What the hook held before the call plays no part. *)
Theorem uploadPDF_outcome h file u s :
  exists u' s',
    Upload.uploadPDF h file u s = (u', s') /\
    Upload.uploading u' = false /\
    ((exists t src,
        recognize h src = Return t /\ trim t <> [] /\
        Upload.rawText u' = Some t /\
        Upload.parsedData u' = Some (parseBankReceiptText t) /\
        Upload.error u' = None) \/
     (exists message,
        Upload.error u' = Some message /\ message <> [] /\
        Upload.parsedData u' = None /\ Upload.rawText u' = None)).
Proof.
  unfold Upload.uploadPDF, parseBankReceiptPDF, try_catch.
  destruct (attempt h file None s) as [[r|err] s1] eqn:E.
  - destruct (attempt_returns_text _ _ _ _ _ _ E) as (t & src & Hsrc & Ht & ->).
    do 2 eexists. split; [reflexivity|]. split; [reflexivity|].
    left. exists t, src.
    destruct t as [|c t]; [now destruct Ht|]. cbn. auto.
  - destruct (recover_returns_failure err s1) as (message & s2 & ->).
    do 2 eexists. split; [reflexivity|]. split; [reflexivity|]. right.
    destruct message; cbn; eexists; (split; [reflexivity|]);
      (split; [discriminate|]); split; reflexivity.
Qed.

(** A file that fails a validation of [parseBankReceiptPDF] leaves the
    hook with that validation's message as its error; no outside call is
    made. *)
Theorem uploadPDF_rejected_file h file u s message :
  rejection file = Some message ->
  Upload.uploadPDF h file u s =
    (Upload.mkUpload false (Some message) None None, s).
Proof.
  intros H. unfold Upload.uploadPDF.
  destruct (rejected_file h file None s message H) as [_ ->].
  assert (Hm : exists c r, message = c :: r).
  { unfold rejection in H.
    destruct (negb _); [injection H as <-; cbn; eauto|].
    destruct (_ <? _)%N; [injection H as <-; cbn; eauto|].
    destruct (_ =? _)%N; [injection H as <-; cbn; eauto | discriminate]. }
  destruct Hm as (c & r & ->). reflexivity.
Qed.

Lemma uploadPDF_rejected_file_witness :
  Upload.uploadPDF obliging_host (mkFile (lit "application/pdf") 0)
    Upload.mounted initial =
    (Upload.mkUpload false (Some empty_message) None None, initial).
Proof.
  apply (uploadPDF_rejected_file obliging_host (mkFile (lit "application/pdf") 0)
           Upload.mounted initial empty_message).
  reflexivity.
Defined.

(* ================================================================== *)
(** ** services/database.ts: the default categories *)
(* ================================================================== *)

Import Database.

Lemma store_get_put_same value store :
  store_get (name value) (store_put value store) = Some value.
Proof.
  unfold store_get. induction store as [|c rest IH]; cbn.
  - now rewrite jsstring_eqb_refl.
  - destruct (eqb (name c) (name value)) eqn:E.
    + cbn. now rewrite jsstring_eqb_refl.
    + destruct (key_lt _ _); cbn.
      * now rewrite jsstring_eqb_refl.
      * rewrite E. exact IH.
Qed.

Lemma store_get_put_other key value store :
  name value <> key ->
  store_get key (store_put value store) = store_get key store.
Proof.
  intros Hk. unfold store_get. apply jsstring_eqb_neq in Hk.
  induction store as [|c rest IH]; cbn.
  - now rewrite Hk.
  - destruct (eqb (name c) (name value)) eqn:E.
    + cbn. rewrite Hk. apply jsstring_eqb_eq in E. rewrite <- E in Hk. now rewrite Hk.
    + destruct (key_lt _ _); cbn.
      * now rewrite Hk.
      * destruct (eqb (name c) key); [reflexivity | exact IH].
Qed.

Lemma initialize_lookup key : forall cs store,
  store_get key (initialize cs store) =
  match store_get key store with
  | Some c => Some c
  | None => find (fun c => eqb (name c) key) cs
  end.
Proof.
  induction cs as [|c cs IH]; intros store; cbn [initialize find].
  - now destruct (store_get key store).
  - rewrite IH. destruct (eqb (name c) key) eqn:E.
    + apply jsstring_eqb_eq in E. subst key.
      destruct (store_get (name c) store) as [x|] eqn:G.
      * now rewrite G.
      * now rewrite store_get_put_same.
    + assert (Hk : name c <> key) by (intros Hk; rewrite Hk, jsstring_eqb_refl in E; discriminate).
      destruct (store_get (name c) store).
      * reflexivity.
      * now rewrite store_get_put_other.
Qed.

Lemma initialize_present : forall cs store,
  Forall (fun c => store_get (name c) store <> None) cs ->
  initialize cs store = store.
Proof.
  induction cs as [|c cs IH]; intros store H; [reflexivity|].
  inversion H as [|? ? Hc Hcs]; subst. cbn [initialize].
  destruct (store_get (name c) store); [now apply IH | contradiction].
Qed.

(** After [initializeDefaultCategories], a name that had a record has the
    same record, whether it is the name of a default category or not; a
    name that had none has the default category of that name, if there is
    one. *)
Theorem initializeDefaultCategories_lookup store key :
  store_get key (initializeDefaultCategories store) =
  match store_get key store with
  | Some c => Some c
  | None => default_of key
  end.
Proof. apply initialize_lookup. Qed.

(** Initialising twice is initialising once: nothing is written when the
    default categories are there. *)
Theorem initializeDefaultCategories_idempotent store :
  initializeDefaultCategories (initializeDefaultCategories store) =
  initializeDefaultCategories store.
Proof.
  apply initialize_present. apply Forall_forall. intros c Hc.
  fold (initializeDefaultCategories store).
  unfold initializeDefaultCategories. rewrite initialize_lookup.
  destruct (store_get (name c) store); [discriminate|].
  assert (H : find (fun d => eqb (name d) (name c)) defaultCategories = Some c).
  { cbn [defaultCategories In] in Hc.
    repeat (destruct Hc as [<-|Hc]; [vm_compute; reflexivity|]).
    contradiction. }
  rewrite H. discriminate.
Qed.

Lemma store_get_delete key store :
  store_get key (store_delete key store) = None.
Proof.
  unfold store_get, store_delete. induction store as [|c rest IH]; cbn.
  - reflexivity.
  - destruct (eqb (name c) key) eqn:E; cbn; [exact IH|]. now rewrite E.
Qed.

Lemma getDatabase_open d : dbInstance (getDatabase d) = true.
Proof. unfold getDatabase. destruct (dbInstance d) eqn:E; [exact E | reflexivity]. Qed.

Lemma getDatabase_opened d : dbInstance d = true -> getDatabase d = d.
Proof. unfold getDatabase. now intros ->. Qed.

(** A default category that was deleted is not listed for the rest of
    the session, and is back, with its default icon and colour, the next
    time the database is opened. *)
Theorem deleted_default_category_returns d c :
  In c defaultCategories ->
  store_get (name c) (fst (getAllCategories (deleteCategory (name c) d))) = None /\
  store_get (name c)
    (fst (getAllCategories (reload (deleteCategory (name c) d)))) = Some c.
Proof.
  intros Hc.
  assert (H : default_of (name c) = Some c).
  { cbn [defaultCategories In] in Hc.
    repeat (destruct Hc as [<-|Hc]; [vm_compute; reflexivity|]).
    contradiction. }
  set (d1 := deleteCategory (name c) d).
  assert (O : dbInstance d1 = true) by apply getDatabase_open.
  assert (G : store_get (name c) (categories d1) = None) by apply store_get_delete.
  split.
  - unfold getAllCategories. rewrite (getDatabase_opened d1 O). exact G.
  - unfold getAllCategories, reload, getDatabase. cbn [dbInstance categories fst].
    unfold initializeDefaultCategories. rewrite initialize_lookup, G. exact H.
Qed.

Lemma deleted_default_category_returns_witness :
  store_get (lit "Other")
    (fst (getAllCategories (deleteCategory (lit "Other") (mkDb false [])))) = None /\
  store_get (lit "Other")
    (fst (getAllCategories (reload (deleteCategory (lit "Other") (mkDb false [])))))
    = Some (mkCategory (lit "Other") (Some (lit "more")) (Some (lit "#FCBAD3"))).
Proof.
  apply (deleted_default_category_returns (mkDb false [])
           (mkCategory (lit "Other") (Some (lit "more")) (Some (lit "#FCBAD3")))).
  cbn. tauto.
Defined.
